(** * connect-db2: a session store over one DB2 table

    Shallow embedding of [lib/connect-db2.js] and proofs of the properties
    its specification states.

    The module is JavaScript glue between the session middleware and a
    database driver.  The embedding follows the source function by
    function: [getExpires], the [Db2Store] constructor and the store
    methods [get], [set], [destroy], [touch], [length], [clear], [close],
    [createDatabaseTable] and [dropDatabaseTable].

    What the source delegates is modelled as follows.

    - JavaScript values are the tree-shaped data a session holds
      ([value]).  A number is held as the decimal that names it: an
      integer, a decimal fraction or [NaN]; a string is a sequence of
      8-bit characters.
    - [JSON.stringify] and [JSON.parse] are written out over these values;
      the parser reads every JSON numeral, and rejects an escape
      [\uXXXX] above [00FF].
    - Text handling of dates ([Date.parse], [toISOString], the conversion
      of an object to a primitive) depends on the engine and the time zone
      and is taken from a [Runtime] record, as is [ibmdb.openSync].
    - The database is one table with the columns that
      [createDatabaseTable] declares, and the driver executes the ten
      statement shapes the module issues against it; [sql] and [params]
      give the text that [util.format] builds for each and the
      parameters passed with it.
    - A method finishes either by throwing or by calling its continuation
      once ([Outcome]); the callbacks of the driver run to completion
      before the method's outcome is observed. *)

From Stdlib Require Import ZArith String Ascii List Bool Lia.
From Stdlib Require Import DecimalString DecimalZ DecimalPos.
From stdpp Require Import base option strings gmap list.

Local Open Scope Z_scope.

(** ** Errors and completions *)

(** The error objects the module can observe or create. *)
Inductive Error : Type :=
| TypeError (message : string)
| SyntaxError (message : string)
| AssertionError
| GenericError (message : string)      (* [new Error(message)] *)
| DriverError (sqlstate : string).     (* reported by the driver *)

(** A computation either returns normally or throws. *)
Inductive completion (A : Type) : Type :=
| Normal (a : A)
| Throw (e : Error).
Arguments Normal {A} a.
Arguments Throw {A} e.

#[global] Instance completion_ret : MRet completion := fun A a => Normal a.
#[global] Instance completion_bind : MBind completion := fun A B k c =>
  match c with
  | Normal a => k a
  | Throw e => Throw e
  end.

(** ** Values *)

(** A JavaScript number of the model, held exactly: an integer, a decimal
    fraction [m / 10^p] that is not an integer ([m] is not a multiple of
    10), or [NaN].  A double agrees with such a number as long as it is an
    integer of magnitude below 2^53 or a fraction of at most 15
    significant digits. *)
Inductive number : Type :=
| Fin (z : Z)
| Frac (m : Z) (p : positive)
| NaN.

#[local] Unset Elimination Schemes.

(** The values a session can hold.  [VDate t] is the object [new Date(t)];
    an object lists its own properties in enumeration order. *)
Inductive value : Type :=
| VUndefined
| VNull
| VBool (b : bool)
| VNum (n : number)
| VBigInt (z : Z)
| VStr (s : string)
| VDate (t : number)
| VArr (elements : list value)
| VObj (properties : list (string * value)).
#[local] Set Elimination Schemes.

(** [ToBoolean]. *)
Definition truthy (v : value) : bool :=
  match v with
  | VUndefined | VNull => false
  | VBool b => b
  | VNum (Fin z) => negb (Z.eqb z 0)
  | VNum (Frac m _) => negb (Z.eqb m 0)
  | VNum NaN => false
  | VBigInt z => negb (Z.eqb z 0)
  | VStr s => negb (String.eqb s "")
  | VDate _ | VArr _ | VObj _ => true
  end.

(** Own property lookup in a property list. *)
Fixpoint lookup_property (k : string) (ps : list (string * value))
  : option value :=
  match ps with
  | [] => None
  | (k', v) :: ps' => if String.eqb k k' then Some v else lookup_property k ps'
  end.

(** [v.k] for the property names the module reads ([cookie], [expires],
    [_expires]): reading from [undefined] or [null] throws; an object
    yields its own property or [undefined]; no other value of the model
    has a property of one of these names. *)
Definition member (v : value) (k : string) : completion value :=
  match v with
  | VUndefined | VNull =>
      Throw (TypeError ("Cannot read property '" +:+ k +:+ "' of " +:+
                        (if v is VNull then "null" else "undefined")))
  | VObj ps => Normal (default VUndefined (lookup_property k ps))
  | _ => Normal VUndefined
  end.

(** ** The database *)

(** The module works on one table, whose name and column names come from
    the options.  Its columns are those [createDatabaseTable] declares:
    [session_id VARCHAR(255) NOT NULL PRIMARY KEY], [expires BIGINT NOT
    NULL] and [data VARCHAR(8100)].  The primary key makes the table a
    finite map from session ids to rows. *)
Record Row : Type := {
  row_expires : Z;
  row_data : option string          (* [None] is SQL [NULL] *)
}.

(** The statements the module issues, with their parameters in the order
    of the source:
    - [SelectData]: SELECT data AS data FROM t WHERE session_id = ?
    - [SelectCount]: SELECT COUNT AS length FROM t WHERE session_id = ?
    - [UpdateSession]: UPDATE t SET expires = ?, data = ? WHERE session_id = ?
    - [InsertSession]: INSERT INTO t (session_id, expires, data) VALUES (?, ?, ?)
    - [DeleteSession]: DELETE FROM t WHERE session_id = ?
    - [UpdateExpires]: UPDATE t SET expires = ? WHERE session_id = ?
    - [CountAll]: SELECT COUNT AS length FROM t
    - [DeleteAll]: DELETE FROM t
    - [CreateTable], [DropTable]. *)
Inductive Statement : Type :=
| SelectData (sid : string)
| SelectCount (sid : string)
| UpdateSession (expires : number) (data : option string) (sid : string)
| InsertSession (sid : string) (expires : number) (data : option string)
| DeleteSession (sid : string)
| UpdateExpires (expires : number) (sid : string)
| CountAll
| DeleteAll
| CreateTable
| DropTable.

(** A row of a result set: the [data] column of [SelectData] or the
    [length] column of the counting statements. *)
Inductive ResultRow : Type :=
| DataRow (data : option string)
| CountRow (length : Z).

(** What the driver hands to the callback of [query]. *)
Inductive QueryResult : Type :=
| Rows (rows : list ResultRow)
| Failed (err : Error).

(** A [BIGINT NOT NULL] column takes a 64-bit integer. *)
Definition as_bigint (n : number) : option Z :=
  match n with
  | Fin z => if (- 2 ^ 63 <=? z) && (z <? 2 ^ 63) then Some z else None
  | Frac _ _ | NaN => None
  end.

(** A [VARCHAR(limit)] column takes a string of at most [limit]
    characters, or [NULL]. *)
Definition fits_varchar (limit : Z) (s : option string) : bool :=
  match s with
  | Some str => Z.of_nat (String.length str) <=? limit
  | None => true
  end.

(** SQLSTATE codes of the failures below. *)
Definition undefined_table : Error := DriverError "42704".
Definition duplicate_table : Error := DriverError "42710".
Definition duplicate_key : Error := DriverError "23505".
Definition value_too_long : Error := DriverError "22001".
Definition numeric_out_of_range : Error := DriverError "22003".
Definition connection_closed : Error := DriverError "08003".

(** One statement against the table ([None]: the table does not exist).
    A value that its column cannot hold makes the statement fail and
    leaves the table as it was. *)
Definition execute (q : Statement) (db : option (gmap string Row))
  : QueryResult * option (gmap string Row) :=
  match db with
  | None =>
      match q with
      | CreateTable => (Rows [], Some ∅)
      | _ => (Failed undefined_table, None)
      end
  | Some t =>
      match q with
      | SelectData sid =>
          (Rows (match t !! sid with
                 | Some r => [DataRow (row_data r)]
                 | None => []
                 end), db)
      | SelectCount sid =>
          (Rows [CountRow (if t !! sid is Some _ then 1 else 0)], db)
      | UpdateSession expires data sid =>
          match as_bigint expires with
          | None => (Failed numeric_out_of_range, db)
          | Some e =>
              if negb (fits_varchar 8100 data) then (Failed value_too_long, db)
              else
                match t !! sid with
                | Some _ =>
                    (Rows [], Some (<[sid := {| row_expires := e; row_data := data |}]> t))
                | None => (Rows [], db)
                end
          end
      | InsertSession sid expires data =>
          match as_bigint expires with
          | None => (Failed numeric_out_of_range, db)
          | Some e =>
              if negb (fits_varchar 255 (Some sid) && fits_varchar 8100 data)
              then (Failed value_too_long, db)
              else
                match t !! sid with
                | Some _ => (Failed duplicate_key, db)
                | None =>
                    (Rows [], Some (<[sid := {| row_expires := e; row_data := data |}]> t))
                end
          end
      | DeleteSession sid => (Rows [], Some (delete sid t))
      | UpdateExpires expires sid =>
          match as_bigint expires with
          | None => (Failed numeric_out_of_range, db)
          | Some e =>
              match t !! sid with
              | Some r =>
                  (Rows [], Some (<[sid := {| row_expires := e; row_data := row_data r |}]> t))
              | None => (Rows [], db)
              end
          end
      | CountAll => (Rows [CountRow (Z.of_nat (size t))], db)
      | DeleteAll => (Rows [], Some ∅)
      | CreateTable => (Failed duplicate_table, db)
      | DropTable => (Rows [], None)
      end
  end.

(** The connection object of the driver: its [connected] flag, the table
    behind it and the statements passed to [query] so far. *)
Record Connection : Type := {
  connected : bool;
  table : option (gmap string Row);
  issued : list Statement
}.

(** [client.query(sql, params, callback)]: the statement is executed and
    the callback receives the result. *)
Definition query (c : Connection) (q : Statement) : QueryResult * Connection :=
  if connected c then
    let (r, db') := execute q (table c) in
    (r, {| connected := true; table := db'; issued := issued c ++ [q] |})
  else
    (Failed connection_closed,
     {| connected := false; table := table c; issued := issued c ++ [q] |}).

(** ** Dates *)

(** [TimeClip]: a time value is an integer of magnitude at most
    8.64e15 milliseconds, or [NaN]; a fraction is cut off towards zero. *)
Definition TimeClip (n : number) : number :=
  match n with
  | Fin z => if Z.abs z <=? 8640000000000000 then Fin z else NaN
  | Frac m p =>
      if Z.abs m <=? 8640000000000000 * 10 ^ Z.pos p
      then Fin (Z.quot m (10 ^ Z.pos p)) else NaN
  | NaN => NaN
  end.

(** [d.getTime()] of the object [new Date(t)]. *)
Definition getTime (t : number) : number := TimeClip t.

(** [Math.round(t / 1000)]: the quotient rounded to the nearest integer,
    halves upwards.  Time values are integers; within their range the
    double-precision quotient lies on the same side of every half-integer
    as the exact one (they differ by at most 2^-11, and the exact
    quotient is at least 1/1000 away from a half-integer unless it is
    one), so the integer formula is exact. *)
Definition Math_round_div_1000 (n : number) : number :=
  match n with
  | Fin t => Fin ((t + 500) / 1000)
  | Frac m p => Fin ((m + 500 * 10 ^ Z.pos p) / (1000 * 10 ^ Z.pos p))
  | NaN => NaN
  end.

(** What the source takes from its environment. *)
Record Runtime : Type := {
  (* [Date.parse(s)]: engine- and time-zone-dependent *)
  Date_parse : string -> number;
  (* time value of [new Date(o)] for an object or array [o], obtained
     through [ToPrimitive]; it may throw *)
  Date_of_object : value -> completion number;
  (* [new Date(t).toISOString()] for a valid time value [t] *)
  Date_toISOString : Z -> string;
  (* [ibmdb.openSync(dsn)] *)
  ibmdb_openSync : string -> completion Connection
}.

Section Expiry.
Context (rt : Runtime).

(** Time value of [new Date(v)] for [v] that is not a Date. *)
Definition new_Date (v : value) : completion number :=
  match v with
  | VUndefined => Normal NaN
  | VNull => Normal (Fin 0)
  | VBool b => Normal (Fin (if b then 1 else 0))
  | VNum n => Normal (TimeClip n)
  | VBigInt _ => Throw (TypeError "Cannot convert a BigInt value to a number")
  | VStr s => Normal (TimeClip (Date_parse rt s))
  | VDate t => Normal (TimeClip t)
  | VArr _ | VObj _ => n ← Date_of_object rt v; Normal (TimeClip n)
  end.

(** Lines 61-66 of the source: the chosen value as whole seconds. *)
Definition whole_seconds (expires : value) : completion number :=
  t ← match expires with
      | VDate t => Normal (getTime t)               (* instanceof Date *)
      | _ => new_Date expires
      end;
  Normal (Math_round_div_1000 t).

(** Lines 49-55: the expiry hint of the session, [undefined] if none. *)
Definition expiry_hint (sess : value) : completion value :=
  cookie ← member sess "cookie";
  if truthy cookie then
    e ← member cookie "expires";
    if truthy e then Normal e
    else
      e' ← member cookie "_expires";
      if truthy e' then Normal e' else Normal VUndefined
  else Normal VUndefined.

(** [getExpires(sess, expiration)], with [now] the value of
    [Date.now()]. *)
Definition getExpires (now : Z) (sess : value) (expiration : Z)
  : completion number :=
  hint ← expiry_hint sess;
  let expires :=
    if negb (truthy hint) then VNum (Fin (now + expiration)) else hint in
  whole_seconds expires.

End Expiry.

(** ** JSON text *)

(** JSON text is handled as a list of characters; [txt] turns a literal
    into one.  Characters are 8-bit code units. *)
Abbreviation text := (list ascii).
Definition txt (s : string) : text := list_ascii_of_string s.

Abbreviation dquote := ("034"%char) (only parsing).
Abbreviation backslash := ("092"%char) (only parsing).

(** *** [JSON.stringify] *)

Definition hex_digit (n : N) : ascii :=
  if (n <? 10)%N then ascii_of_N (48 + n) else ascii_of_N (87 + n).

(** The escape of one character in [QuoteJSONString]. *)
Definition escape_char (c : ascii) : text :=
  match c with
  | dquote => [backslash; dquote]
  | backslash => [backslash; backslash]
  | "008"%char => [backslash; "b"%char]
  | "012"%char => [backslash; "f"%char]
  | "010"%char => [backslash; "n"%char]
  | "013"%char => [backslash; "r"%char]
  | "009"%char => [backslash; "t"%char]
  | _ =>
      let n := N_of_ascii c in
      if (n <? 32)%N
      then [backslash; "u"%char; "0"%char; "0"%char;
            hex_digit (n / 16); hex_digit (n mod 16)]
      else [c]
  end.

Fixpoint quote_chars (s : string) : text :=
  match s with
  | EmptyString => []
  | String c s' => escape_char c ++ quote_chars s'
  end.

Definition QuoteJSONString (s : string) : text :=
  dquote :: quote_chars s ++ [dquote].

Fixpoint uint_text (d : Decimal.uint) : text :=
  match d with
  | Decimal.Nil => []
  | Decimal.D0 d' => "0"%char :: uint_text d'
  | Decimal.D1 d' => "1"%char :: uint_text d'
  | Decimal.D2 d' => "2"%char :: uint_text d'
  | Decimal.D3 d' => "3"%char :: uint_text d'
  | Decimal.D4 d' => "4"%char :: uint_text d'
  | Decimal.D5 d' => "5"%char :: uint_text d'
  | Decimal.D6 d' => "6"%char :: uint_text d'
  | Decimal.D7 d' => "7"%char :: uint_text d'
  | Decimal.D8 d' => "8"%char :: uint_text d'
  | Decimal.D9 d' => "9"%char :: uint_text d'
  end.

Definition digit_char (d : Z) : ascii := ascii_of_N (48 + Z.to_N d).

(** The [p] digits of [f], most significant first, with leading zeros. *)
Fixpoint frac_digits (p : nat) (f : Z) : list Z :=
  match p with
  | O => []
  | S p' => f / 10 ^ Z.of_nat p' :: frac_digits p' (f mod 10 ^ Z.of_nat p')
  end.

Definition frac_text (p : nat) (f : Z) : text := map digit_char (frac_digits p f).

(** The decimal digits of a natural number. *)
Definition digits_text (z : Z) : text :=
  match Z.to_int z with
  | Decimal.Pos d | Decimal.Neg d => uint_text d
  end.

(** Exponent notation for the digits [s] of a number [0.s * 10^n]. *)
Definition exponent_text (s : Decimal.uint) (n : Z) : text :=
  let e := n - 1 in
  let exponent :=
    "e"%char :: (if e <? 0 then "-"%char else "+"%char) :: digits_text (Z.abs e) in
  match uint_text s with
  | [] => exponent
  | [d] => d :: exponent
  | d :: ds => d :: "."%char :: ds ++ exponent
  end.

(** [Number::toString] of a positive number: an integer up to 21 digits
    is written digit by digit; a fraction from 1e-6 up to 1e21 is written
    with a decimal point; anything else in exponent notation. *)
Definition magnitude_text (n : number) : text :=
  match n with
  | Fin z =>
      if Z.abs z <? 10 ^ 21 then digits_text (Z.abs z)
      else
        let d := Pos.to_uint (Z.to_pos (Z.abs z)) in
        exponent_text (fst (Decimal.nztail d)) (Z.of_nat (Decimal.nb_digits d))
  | Frac m p =>
      let scale := 10 ^ Z.pos p in
      if (scale <=? Z.abs m * 10 ^ 6) && (Z.abs m <? 10 ^ 21 * scale)
      then digits_text (Z.abs m / scale)
             ++ "."%char :: frac_text (Pos.to_nat p) (Z.abs m mod scale)
      else
        let d := Pos.to_uint (Z.to_pos (Z.abs m)) in
        exponent_text d (Z.of_nat (Decimal.nb_digits d) - Z.pos p)
  | NaN => txt "NaN"
  end.

Definition is_negative (n : number) : bool :=
  match n with
  | Fin z => z <? 0
  | Frac m _ => m <? 0
  | NaN => false
  end.

(** [Number::toString]. *)
Definition number_text (n : number) : text :=
  if is_negative n then "-"%char :: magnitude_text n else magnitude_text n.

Fixpoint join_comma (parts : list text) : text :=
  match parts with
  | [] => []
  | [p] => p
  | p :: ps => p ++ ","%char :: join_comma ps
  end.

(** The elements of an array, one text each; [undefined] is written
    null. *)
Definition serialize_elements (serialize : value -> completion (option text))
  : list value -> completion (list text) :=
  fix each (l : list value) : completion (list text) :=
    match l with
    | [] => Normal []
    | x :: l' =>
        t ← serialize x;
        ts ← each l';
        Normal (default (txt "null") t :: ts)
    end.

(** The members of an object; a property whose value is [undefined] is
    left out. *)
Definition serialize_members (serialize : value -> completion (option text))
  : list (string * value) -> completion (list text) :=
  fix each (ps : list (string * value)) : completion (list text) :=
    match ps with
    | [] => Normal []
    | (k, x) :: ps' =>
        t ← serialize x;
        ts ← each ps';
        Normal (match t with
                | Some tx => (QuoteJSONString k ++ ":"%char :: tx) :: ts
                | None => ts
                end)
    end.

Section Stringify.
Context (rt : Runtime).

(** [SerializeJSONProperty]: [None] stands for [undefined]. *)
Fixpoint SerializeJSONProperty (v : value) : completion (option text) :=
  match v with
  | VUndefined => Normal None
  | VNull => Normal (Some (txt "null"))
  | VBool b => Normal (Some (txt (if b then "true" else "false")))
  | VNum NaN => Normal (Some (txt "null"))
  | VNum n => Normal (Some (number_text n))
  | VBigInt _ => Throw (TypeError "Do not know how to serialize a BigInt")
  | VStr s => Normal (Some (QuoteJSONString s))
  | VDate t =>                                     (* [Date.prototype.toJSON] *)
      match TimeClip t with
      | Fin ms => Normal (Some (QuoteJSONString (Date_toISOString rt ms)))
      | Frac _ _ | NaN => Normal (Some (txt "null"))
      end
  | VArr elements =>
      parts ← serialize_elements SerializeJSONProperty elements;
      Normal (Some ("["%char :: join_comma parts ++ ["]"%char]))
  | VObj properties =>
      parts ← serialize_members SerializeJSONProperty properties;
      Normal (Some ("{"%char :: join_comma parts ++ ["}"%char]))
  end.

(** [JSON.stringify(v)]: a string, or [undefined] ([None]). *)
Definition JSON_stringify (v : value) : completion (option string) :=
  t ← SerializeJSONProperty v;
  Normal (option_map string_of_list_ascii t).

End Stringify.

(** *** [JSON.parse] *)

Definition is_ws (c : ascii) : bool :=
  match c with
  | " "%char | "009"%char | "010"%char | "013"%char => true
  | _ => false
  end.

Fixpoint skip_ws (s : text) : text :=
  match s with
  | c :: s' => if is_ws c then skip_ws s' else s
  | [] => []
  end.

Definition hex_value (c : ascii) : option N :=
  let n := N_of_ascii c in
  if (48 <=? n)%N && (n <=? 57)%N then Some (n - 48)%N
  else if (97 <=? n)%N && (n <=? 102)%N then Some (n - 87)%N
  else if (65 <=? n)%N && (n <=? 70)%N then Some (n - 55)%N
  else None.

(** The character a two-character escape stands for. *)
Definition unescape (c : ascii) : option ascii :=
  match c with
  | dquote => Some dquote
  | backslash => Some backslash
  | "/"%char => Some "/"%char
  | "b"%char => Some "008"%char
  | "f"%char => Some "012"%char
  | "n"%char => Some "010"%char
  | "r"%char => Some "013"%char
  | "t"%char => Some "009"%char
  | _ => None
  end.

(** The characters of a string literal after its opening quote, up to
    and including the closing quote.  An escape [\uXXXX] above 00FF
    names a code unit that the 8-bit characters of the model do not
    have; such a literal is not accepted. *)
Fixpoint parse_string_chars (s : text) : option (string * text) :=
  match s with
  | [] => None
  | c :: rest =>
      if Ascii.eqb c dquote then Some (EmptyString, rest)
      else if Ascii.eqb c backslash then
        match rest with
        | [] => None
        | e :: rest1 =>
            if Ascii.eqb e "u"%char then
              match rest1 with
              | h1 :: h2 :: h3 :: h4 :: rest2 =>
                  match hex_value h1, hex_value h2, hex_value h3, hex_value h4 with
                  | Some a, Some b, Some c', Some d =>
                      let code := (((a * 16 + b) * 16 + c') * 16 + d)%N in
                      if (code <? 256)%N then
                        match parse_string_chars rest2 with
                        | Some (str, rest3) => Some (String (ascii_of_N code) str, rest3)
                        | None => None
                        end
                      else None
                  | _, _, _, _ => None
                  end
              | _ => None
              end
            else
              match unescape e with
              | Some ch =>
                  match parse_string_chars rest1 with
                  | Some (str, rest2) => Some (String ch str, rest2)
                  | None => None
                  end
              | None => None
              end
        end
      else if (N_of_ascii c <? 32)%N then None
      else
        match parse_string_chars rest with
        | Some (str, rest1) => Some (String c str, rest1)
        | None => None
        end
  end.

Definition digit_of (c : ascii) : option (Decimal.uint -> Decimal.uint) :=
  match c with
  | "0"%char => Some Decimal.D0
  | "1"%char => Some Decimal.D1
  | "2"%char => Some Decimal.D2
  | "3"%char => Some Decimal.D3
  | "4"%char => Some Decimal.D4
  | "5"%char => Some Decimal.D5
  | "6"%char => Some Decimal.D6
  | "7"%char => Some Decimal.D7
  | "8"%char => Some Decimal.D8
  | "9"%char => Some Decimal.D9
  | _ => None
  end.

(** The longest run of digits at the head of the text. *)
Fixpoint read_digits (s : text) : Decimal.uint * text :=
  match s with
  | [] => (Decimal.Nil, [])
  | c :: rest =>
      match digit_of c with
      | Some D => let (d, rest') := read_digits rest in (D d, rest')
      | None => (Decimal.Nil, s)
      end
  end.

Definition digit_value (c : ascii) : option Z :=
  let n := N_of_ascii c in
  if (48 <=? n)%N && (n <=? 57)%N then Some (Z.of_N n - 48) else None.

(** The longest run of digits at the head of the text, as their values. *)
Fixpoint read_run (s : text) : list Z * text :=
  match s with
  | [] => ([], [])
  | c :: rest =>
      match digit_value c with
      | Some d => let (ds, rest') := read_run rest in (d :: ds, rest')
      | None => ([], s)
      end
  end.

Definition run_value (ds : list Z) : Z :=
  fold_left (fun acc d => acc * 10 + d) ds 0.

(** The fraction of a numeral: a point and at least one digit, or
    nothing. *)
Definition parse_fraction (s : text) : option (list Z * text) :=
  match s with
  | "."%char :: s' =>
      let (ds, rest) := read_run s' in
      if ds is [] then None else Some (ds, rest)
  | _ => Some ([], s)
  end.

Definition read_exponent (negative : bool) (s : text) : option (Z * text) :=
  let (ds, rest) := read_run s in
  if ds is [] then None
  else Some (if negative then - run_value ds else run_value ds, rest).

(** The exponent of a numeral: [e] or [E], an optional sign and at least
    one digit, or nothing. *)
Definition parse_exponent (s : text) : option (Z * text) :=
  match s with
  | "e"%char :: s' | "E"%char :: s' =>
      match s' with
      | "-"%char :: s'' => read_exponent true s''
      | "+"%char :: s'' => read_exponent false s''
      | _ => read_exponent false s'
      end
  | _ => Some (0, s)
  end.

(** Drop up to [k] trailing zeros of [m], counting down [k]. *)
Fixpoint strip_zeros (k : nat) (m : Z) : Z * nat :=
  match k with
  | O => (m, O)
  | S k' => if m mod 10 =? 0 then strip_zeros k' (m / 10) else (m, k)
  end.

(** The number [m * 10^x]. *)
Definition decimal (m x : Z) : number :=
  if 0 <=? x then Fin (m * 10 ^ x)
  else
    let (m', k) := strip_zeros (Z.to_nat (- x)) m in
    match k with
    | O => Fin m'
    | S _ => Frac m' (Pos.of_nat k)
    end.

(** The digits of a JSON numeral: an integer part without a leading
    zero, an optional fraction and an optional exponent.  The numeral is
    kept exactly, where [JSON.parse] rounds it to a double: the same
    number for the numerals of [safe_number], which are all that
    [JSON.stringify] writes for JSON data. *)
Definition parse_unsigned (negative : bool) (s : text) : option (number * text) :=
  let (d, s1) := read_digits s in
  if Decimal.uint_beq d Decimal.Nil then None
  else if negb (Decimal.uint_beq (Decimal.unorm d) d) then None
  else
    match parse_fraction s1 with
    | Some (fs, s2) =>
        match parse_exponent s2 with
        | Some (e, rest) =>
            let places := Z.of_nat (length fs) in
            let mantissa := Z.of_uint d * 10 ^ places + run_value fs in
            Some (decimal (if negative then - mantissa else mantissa) (e - places),
                  rest)
        | None => None
        end
    | None => None
    end.

Definition parse_number (s : text) : option (number * text) :=
  match s with
  | "-"%char :: s' => parse_unsigned true s'
  | _ => parse_unsigned false s
  end.

(** What may follow a value inside an array or an object, or end the
    text. *)
Definition is_value_end (s : text) : bool :=
  match s with
  | [] => true
  | c :: _ => Ascii.eqb c ","%char || Ascii.eqb c "]"%char || Ascii.eqb c "}"%char
  end.

(** [k] as an array index: the canonical numeral of an integer below
    2^32 - 1. *)
Definition array_index (k : string) : option N :=
  match NilZero.uint_of_string k with
  | Some d =>
      if Decimal.uint_beq (Decimal.unorm d) d && (N.of_uint d <? 4294967295)%N
      then Some (N.of_uint d) else None
  | None => None
  end.

Fixpoint replace_property (k : string) (v : value) (ps : list (string * value))
  : list (string * value) :=
  match ps with
  | [] => []
  | (k', v') :: ps' =>
      if String.eqb k k' then (k, v) :: ps' else (k', v') :: replace_property k v ps'
  end.

Fixpoint insert_index (i : N) (k : string) (v : value) (ps : list (string * value))
  : list (string * value) :=
  match ps with
  | [] => [(k, v)]
  | (k', v') :: ps' =>
      match array_index k' with
      | Some j => if (j <? i)%N then (k', v') :: insert_index i k v ps'
                  else (k, v) :: ps
      | None => (k, v) :: ps
      end
  end.

(** [CreateDataProperty] on an ordinary object: an existing property
    keeps its place and takes the new value; a new array index goes among
    the indices in ascending order; any other new name goes last. *)
Definition define_property (k : string) (v : value) (ps : list (string * value))
  : list (string * value) :=
  match lookup_property k ps with
  | Some _ => replace_property k v ps
  | None =>
      match array_index k with
      | Some i => insert_index i k v ps
      | None => ps ++ [(k, v)]
      end
  end.

(** Recursive descent over the text.  One step of each of the three
    mutually recursive parsers is written over the parsers it calls. *)

(** A value: a literal, a string, a number, an array or an object. *)
Definition value_step (elements : text -> option (list value * text))
    (members : text -> list (string * value) -> option (value * text))
    (s : text) : option (value * text) :=
  match skip_ws s with
  | "n"%char :: "u"%char :: "l"%char :: "l"%char :: rest => Some (VNull, rest)
  | "t"%char :: "r"%char :: "u"%char :: "e"%char :: rest => Some (VBool true, rest)
  | "f"%char :: "a"%char :: "l"%char :: "s"%char :: "e"%char :: rest =>
      Some (VBool false, rest)
  | "["%char :: rest =>
      match skip_ws rest with
      | "]"%char :: rest' => Some (VArr [], rest')
      | _ =>
          match elements rest with
          | Some (vs, rest') => Some (VArr vs, rest')
          | None => None
          end
      end
  | "{"%char :: rest =>
      match skip_ws rest with
      | "}"%char :: rest' => Some (VObj [], rest')
      | _ => members rest []
      end
  | c :: rest =>
      if Ascii.eqb c dquote then
        match parse_string_chars rest with
        | Some (str, rest') => Some (VStr str, rest')
        | None => None
        end
      else
        match parse_number (c :: rest) with
        | Some (n, rest') => Some (VNum n, rest')
        | None => None
        end
  | [] => None
  end.

(** The elements of an array after its opening bracket, up to and
    including the closing one. *)
Definition elements_step (parse : text -> option (value * text))
    (elements : text -> option (list value * text)) (s : text)
  : option (list value * text) :=
  match parse s with
  | Some (v, rest) =>
      match skip_ws rest with
      | ","%char :: rest' =>
          match elements rest' with
          | Some (vs, rest'') => Some (v :: vs, rest'')
          | None => None
          end
      | "]"%char :: rest' => Some ([v], rest')
      | _ => None
      end
  | None => None
  end.

(** The members of an object after its opening brace, up to and
    including the closing one; [acc] holds the properties defined so far. *)
Definition members_step (parse : text -> option (value * text))
    (members : text -> list (string * value) -> option (value * text))
    (s : text) (acc : list (string * value)) : option (value * text) :=
  match skip_ws s with
  | c :: s1 =>
      if Ascii.eqb c dquote then
        match parse_string_chars s1 with
        | Some (k, s2) =>
            match skip_ws s2 with
            | ":"%char :: s3 =>
                match parse s3 with
                | Some (v, s4) =>
                    let acc' := define_property k v acc in
                    match skip_ws s4 with
                    | ","%char :: s5 => members s5 acc'
                    | "}"%char :: s5 => Some (VObj acc', s5)
                    | _ => None
                    end
                | None => None
                end
            | _ => None
            end
        | None => None
        end
      else None
  | [] => None
  end.

(** [fuel] bounds the number of nested calls; [JSON_parse] supplies more
    than any text can use. *)
Fixpoint parse_value (fuel : nat) (s : text) : option (value * text) :=
  match fuel with
  | O => None
  | S fuel' => value_step (parse_elements fuel') (parse_members fuel') s
  end
with parse_elements (fuel : nat) (s : text) : option (list value * text) :=
  match fuel with
  | O => None
  | S fuel' => elements_step (parse_value fuel') (parse_elements fuel') s
  end
with parse_members (fuel : nat) (s : text) (acc : list (string * value))
  : option (value * text) :=
  match fuel with
  | O => None
  | S fuel' => members_step (parse_value fuel') (parse_members fuel') s acc
  end.

(** [JSON.parse(s)]. *)
Definition JSON_parse (s : string) : completion value :=
  let t := list_ascii_of_string s in
  match parse_value (S (2 * length t)) t with
  | Some (v, rest) =>
      match skip_ws rest with
      | [] => Normal v
      | _ => Throw (SyntaxError "Unexpected token in JSON")
      end
  | None => Throw (SyntaxError "Unexpected token in JSON")
  end.

(** *** JSON data *)

(** The numbers a double holds and writes exactly: integers of magnitude
    below 2^53, and fractions of at most 15 significant digits that are
    written with a decimal point. *)
Definition safe_number (n : number) : bool :=
  match n with
  | Fin z => Z.abs z <=? 9007199254740991
  | Frac m p =>
      negb (m mod 10 =? 0) && (Z.abs m <? 10 ^ 15)
      && (10 ^ Z.pos p <=? Z.abs m * 10 ^ 6)
  | NaN => false
  end.

Fixpoint names_only (ps : list (string * value)) : bool :=
  match ps with
  | [] => true
  | (k, _) :: ps' => if array_index k is Some _ then false else names_only ps'
  end.

(** The order in which an object enumerates its own properties: array
    indices ascending, then the other names. *)
Fixpoint enumeration_order (prev : option N) (ps : list (string * value)) : bool :=
  match ps with
  | [] => true
  | (k, _) :: ps' =>
      match array_index k with
      | Some i =>
          (if prev is Some p then (p <? i)%N else true)
          && enumeration_order (Some i) ps'
      | None => names_only ps'
      end
  end.

Fixpoint distinct_names (ps : list (string * value)) : bool :=
  match ps with
  | [] => true
  | (k, _) :: ps' =>
      (if lookup_property k ps' is Some _ then false else true) && distinct_names ps'
  end.

(** The values that JSON text denotes: [null], booleans, safe numbers,
    strings, and arrays and objects of such values.  An object has
    distinct property names, listed in enumeration order. *)
Fixpoint json_data (v : value) : bool :=
  match v with
  | VNull | VBool _ | VStr _ => true
  | VNum n => safe_number n
  | VArr elements => forallb json_data elements
  | VObj properties =>
      distinct_names properties && enumeration_order None properties
      && forallb (fun p => json_data (snd p)) properties
  | VUndefined | VBigInt _ | VDate _ => false
  end.

(** Fuel that [parse_value] needs to read back the text of a value. *)
Fixpoint need (v : value) : nat :=
  match v with
  | VArr elements =>
      S ((fix sum (l : list value) : nat :=
            match l with
            | [] => O
            | x :: l' => S (need x + sum l')
            end) elements)
  | VObj properties =>
      S ((fix sum (ps : list (string * value)) : nat :=
            match ps with
            | [] => O
            | (_, x) :: ps' => S (need x + sum ps')
            end) properties)
  | _ => 1%nat
  end.

(** ** The store *)

Record Schema : Type := {
  tableName : string;
  session_id_column : string;
  expires_column : string;
  data_column : string
}.

(** [this.options]: the defaults overridden by what the caller gave. *)
Record Options : Type := {
  expiration : Z;
  schema : Schema;
  allowDrop : value;
  dsn : option string;
  database : option string;
  user : option string;
  password : option string;
  host : option string;
  port : option string
}.

(** The options object a caller passes; an absent field is [None]. *)
Record UserOptions : Type := {
  given_expiration : option Z;
  given_tableName : option string;
  given_session_id_column : option string;
  given_expires_column : option string;
  given_data_column : option string;
  given_allowDrop : option value;
  given_dsn : option string;
  given_database : option string;
  given_user : option string;
  given_password : option string;
  given_host : option string;
  given_port : option string
}.

Definition oneDay : Z := 86400.

Definition defaultOptions : Options := {|
  expiration := oneDay * 30;
  schema := {| tableName := "sessions";
               session_id_column := "session_id";
               expires_column := "expires";
               data_column := "data" |};
  allowDrop := VBool false;
  dsn := None; database := None; user := None;
  password := None; host := None; port := None
|}.

Definition no_options : UserOptions := {|
  given_expiration := None; given_tableName := None;
  given_session_id_column := None; given_expires_column := None;
  given_data_column := None; given_allowDrop := None; given_dsn := None;
  given_database := None; given_user := None; given_password := None;
  given_host := None; given_port := None
|}.

(** [extend(true, {}, defaults, options)]: a deep merge in which the
    fields that [options] defines win. *)
Definition extend (defaults : Options) (o : UserOptions) : Options := {|
  expiration := default (expiration defaults) (given_expiration o);
  schema := {|
    tableName := default (tableName (schema defaults)) (given_tableName o);
    session_id_column :=
      default (session_id_column (schema defaults)) (given_session_id_column o);
    expires_column :=
      default (expires_column (schema defaults)) (given_expires_column o);
    data_column := default (data_column (schema defaults)) (given_data_column o)
  |};
  allowDrop := default (allowDrop defaults) (given_allowDrop o);
  dsn := from_option Some (dsn defaults) (given_dsn o);
  database := from_option Some (database defaults) (given_database o);
  user := from_option Some (user defaults) (given_user o);
  password := from_option Some (password defaults) (given_password o);
  host := from_option Some (host defaults) (given_host o);
  port := from_option Some (port defaults) (given_port o)
|}.

(** A string field in a concatenation; an absent one reads "undefined". *)
Definition shown (s : option string) : string := default "undefined" s.

(** The connection string the constructor builds (lines 109-115). *)
Definition connection_string (o : Options) : string :=
  match dsn o with
  | Some (String c s) => String c s           (* [this.options.dsn ||] *)
  | _ =>
      "DRIVER={DB2};DATABASE=" +:+ shown (database o) +:+
      ";UID=" +:+ shown (user o) +:+
      ";PWD=" +:+ shown (password o) +:+
      ";HOSTNAME=" +:+ shown (host o) +:+
      ";port=" +:+ shown (port o) +:+
      ";PROTOCOL=TCPIP"
  end.

(** Events the store emits. *)
Inductive Event : Type :=
| Connect
| Disconnect (err : option Error).

(** How a method ends: it throws, or it calls its continuation as
    [fn(err, result)]; an argument that is not passed is [undefined], and
    [err] is [None] when it is [null] or not passed. *)
Inductive Outcome : Type :=
| Thrown (e : Error)
| Called (err : option Error) (result : value).

(** How [Db2Store] is invoked: [new Db2Store(...)], or [Db2Store(...)]
    as a plain function, in which [this] is [undefined]. *)
Inductive Invocation : Type :=
| WithNew
| AsFunction.

Module Db2Store.

(** A store object: its options, its client and the events emitted on
    it. *)
Record t : Type := {
  options : Options;
  client : Connection;
  emitted : list Event
}.

Definition with_client (store : t) (c : Connection) : t :=
  {| options := options store; client := c; emitted := emitted store |}.

(** What a construction did besides its result: the connection strings
    passed to [ibmdb.openSync] and the events emitted. *)
Record Effects : Type := {
  opened : list string;
  construction_events : list Event
}.

Section Methods.
Context (rt : Runtime).

(** The constructor (lines 94-128). *)
Definition construct (how : Invocation) (given : option UserOptions)
    (connection : option Connection) : completion t * Effects :=
  match how with
  | AsFunction =>
      (Throw (TypeError "Cannot call Db2Store constructor as a function"),
       {| opened := []; construction_events := [] |})
  | WithNew =>
      let opts := extend defaultOptions (default no_options given) in
      let '(handle, effects) :=
        match connection with
        | Some c => (Some c, {| opened := []; construction_events := [] |})
        | None =>
            let dsn := connection_string opts in
            match ibmdb_openSync rt dsn with
            | Normal c =>
                (Some c, {| opened := [dsn]; construction_events := [Connect] |})
            | Throw err =>
                (None, {| opened := [dsn];
                          construction_events := [Disconnect (Some err)] |})
            end
        end in
      match handle with
      | None => (Throw AssertionError, effects)             (* line 126 *)
      | Some c =>
          if connected c then
            (Normal {| options := opts; client := c;
                       emitted := construction_events effects |}, effects)
          else (Throw AssertionError, effects)              (* line 127 *)
      end
  end.

(** [JSON.parse(rows[0].data)]: the argument is turned into a string
    first, so [null] reads as the text null and a missing column as
    the text undefined. *)
Definition parse_data (row : ResultRow) : completion value :=
  match row with
  | DataRow (Some s) => JSON_parse s
  | DataRow None => JSON_parse "null"
  | CountRow _ => JSON_parse "undefined"
  end.

(** [rows[0].length]. *)
Definition length_column (row : ResultRow) : value :=
  match row with
  | CountRow n => VNum (Fin n)
  | DataRow _ => VUndefined
  end.

(** [count > 0]. *)
Definition positive_count (count : value) : bool :=
  match count with
  | VNum (Fin n) => 0 <? n
  | VNum (Frac m _) => 0 <? m
  | _ => false
  end.

(** [get(sid, fn)] (lines 144-176). *)
Definition get (store : t) (sid : string) : Outcome * t :=
  if negb (connected (client store)) then (Thrown AssertionError, store)
  else
    let (res, c) := query (client store) (SelectData sid) in
    let store' := with_client store c in
    match res with
    | Failed err => (Called (Some err) VNull, store')
    | Rows rows =>
        match rows with
        | row :: _ =>
            match parse_data row with
            | Normal result => (Called None result, store')
            | Throw _ =>
                (Called (Some (GenericError
                   ("Failed to parse data for session: " +:+ sid))) VUndefined,
                 store')
            end
        | [] => (Called None VNull, store')
        end
    end.

(** [set(sid, sess, fn)] (lines 187-249); [now] is [Date.now()]. *)
Definition set (now : Z) (store : t) (sid : string) (sess : value)
  : Outcome * t :=
  match getExpires rt now sess (expiration (options store)) with
  | Throw e => (Thrown e, store)
  | Normal expires =>
      match JSON_stringify rt sess with
      | Throw err => (Called (Some err) VUndefined, store)
      | Normal jsess =>
          if negb (connected (client store)) then (Thrown AssertionError, store)
          else
            let (res, c1) := query (client store) (SelectCount sid) in
            match res with
            | Failed err => (Called (Some err) VUndefined, with_client store c1)
            | Rows rows =>
                let count :=
                  match rows with
                  | row :: _ => length_column row
                  | [] => VNum (Fin 0)
                  end in
                let statement :=
                  if positive_count count
                  then UpdateSession expires jsess sid
                  else InsertSession sid expires jsess in
                let (res', c2) := query c1 statement in
                match res' with
                | Failed err => (Called (Some err) VUndefined, with_client store c2)
                | Rows _ => (Called None VUndefined, with_client store c2)
                end
            end
      end
  end.

(** [destroy(sid, fn)] (lines 258-278). *)
Definition destroy (store : t) (sid : string) : Outcome * t :=
  if negb (connected (client store)) then (Thrown AssertionError, store)
  else
    let (res, c) := query (client store) (DeleteSession sid) in
    match res with
    | Failed err => (Called (Some err) VUndefined, with_client store c)
    | Rows _ => (Called None VUndefined, with_client store c)
    end.

(** [touch(sid, sess, fn)] (lines 289-314). *)
Definition touch (now : Z) (store : t) (sid : string) (sess : value)
  : Outcome * t :=
  match getExpires rt now sess (expiration (options store)) with
  | Throw e => (Thrown e, store)
  | Normal expires =>
      if negb (connected (client store)) then (Thrown AssertionError, store)
      else
        let (res, c) := query (client store) (UpdateExpires expires sid) in
        match res with
        | Failed err => (Called (Some err) VUndefined, with_client store c)
        | Rows _ => (Called None VUndefined, with_client store c)
        end
  end.

(** [length(fn)] (lines 323-344). *)
Definition length (store : t) : Outcome * t :=
  if negb (connected (client store)) then (Thrown AssertionError, store)
  else
    let (res, c) := query (client store) CountAll in
    match res with
    | Failed err => (Called (Some err) VUndefined, with_client store c)
    | Rows rows =>
        let count :=
          match rows with
          | row :: _ => length_column row
          | [] => VNum (Fin 0)
          end in
        (Called None count, with_client store c)
    end.

(** [clear(fn)] (lines 353-371). *)
Definition clear (store : t) : Outcome * t :=
  if negb (connected (client store)) then (Thrown AssertionError, store)
  else
    let (res, c) := query (client store) DeleteAll in
    match res with
    | Failed err => (Called (Some err) VUndefined, with_client store c)
    | Rows _ => (Called None VUndefined, with_client store c)
    end.


(** [createDatabaseTable(fn)] (lines 414-438). *)
Definition createDatabaseTable (store : t) : Outcome * t :=
  if negb (connected (client store)) then (Thrown AssertionError, store)
  else
    let (res, c) := query (client store) CreateTable in
    match res with
    | Failed err => (Called (Some err) VUndefined, with_client store c)
    | Rows _ => (Called None VUndefined, with_client store c)
    end.

Definition drop_not_allowed : Error :=
  GenericError ("Dropping session table not allowed by config. " +:+
                "Set allowDrop: true in your config to enable this.").

(** [dropDatabaseTable(fn)] (lines 447-473). *)
Definition dropDatabaseTable (store : t) : Outcome * t :=
  if negb (truthy (allowDrop (options store))) then
    (Called (Some drop_not_allowed) VUndefined, store)
  else if negb (connected (client store)) then (Thrown AssertionError, store)
  else
    let (res, c) := query (client store) DropTable in
    match res with
    | Failed err => (Called (Some err) VUndefined, with_client store c)
    | Rows _ => (Called None VUndefined, with_client store c)
    end.

End Methods.

End Db2Store.

(** ** The text of the statements *)

(** [util.format(f, ...args)] with string arguments, for the directives
    the source uses: each [%s] takes the next argument as it is, and [%%]
    is a percent sign; a [%s] with no argument left stays, and arguments
    left over are appended after a space each. *)
Fixpoint format (f : string) (args : list string) : string :=
  match f with
  | EmptyString => fold_right (fun a r => String " " (a +:+ r)) EmptyString args
  | String c f' =>
      if Ascii.eqb c "%" then
        match f' with
        | String d f'' =>
            if Ascii.eqb d "s" then
              match args with
              | a :: args' => a +:+ format f'' args'
              | [] => String c (String d (format f'' []))
              end
            else if Ascii.eqb d "%" then String c (format f'' args)
            else String c (format f' args)
        | EmptyString => String c (format f' args)
        end
      else String c (format f' args)
  end.

(** The format strings of the source hold double quotes; they are written
    here with an apostrophe in the place of each, which [quoted] turns
    back into a double quote. *)
Fixpoint quoted (s : string) : string :=
  match s with
  | EmptyString => EmptyString
  | String c s' => String (if Ascii.eqb c "'" then dquote else c) (quoted s')
  end.

(** The [sql] text that a method passes to [client.query] for a
    statement (lines 150, 203, 218, 228, 264, 299, 329, 359, 420 and
    460). *)
Definition sql (s : Schema) (q : Statement) : string :=
  match q with
  | SelectData _ =>
      format (quoted "SELECT '%s' AS 'data' FROM '%s' WHERE '%s' = ?")
        [data_column s; tableName s; session_id_column s]
  | SelectCount _ =>
      format (quoted "SELECT COUNT(*) AS 'length' FROM '%s' WHERE '%s' = ?")
        [tableName s; session_id_column s]
  | UpdateSession _ _ _ =>
      format (quoted "UPDATE '%s' SET '%s' = ?, '%s' = ? WHERE '%s' = ?")
        [tableName s; expires_column s; data_column s; session_id_column s]
  | InsertSession _ _ _ =>
      format (quoted "INSERT INTO '%s' ('%s', '%s', '%s') VALUES (?, ?, ?)")
        [tableName s; session_id_column s; expires_column s; data_column s]
  | DeleteSession _ =>
      format (quoted "DELETE FROM '%s' WHERE '%s' = ?")
        [tableName s; session_id_column s]
  | UpdateExpires _ _ =>
      format (quoted "UPDATE '%s' SET '%s' = ? WHERE '%s' = ?")
        [tableName s; expires_column s; session_id_column s]
  | CountAll =>
      format (quoted "SELECT COUNT(*) AS 'length' FROM '%s'") [tableName s]
  | DeleteAll => format (quoted "DELETE FROM '%s'") [tableName s]
  | CreateTable =>
      format
        (quoted "CREATE TABLE '%s' ('%s' VARCHAR(255) NOT NULL PRIMARY KEY, '%s' BIGINT NOT NULL, '%s' VARCHAR(8100))")
        [tableName s; session_id_column s; expires_column s; data_column s]
  | DropTable => format (quoted "DROP TABLE '%s'") [tableName s]
  end.

(** [JSON.stringify] returns a string or [undefined]. *)
Definition text_value (t : option string) : value :=
  match t with
  | Some s => VStr s
  | None => VUndefined
  end.

(** The [params] array passed with the text. *)
Definition params (q : Statement) : list value :=
  match q with
  | SelectData sid | SelectCount sid | DeleteSession sid => [VStr sid]
  | UpdateSession expires data sid => [VNum expires; text_value data; VStr sid]
  | InsertSession sid expires data => [VStr sid; VNum expires; text_value data]
  | UpdateExpires expires sid => [VNum expires; VStr sid]
  | CountAll | DeleteAll | CreateTable | DropTable => []
  end.

(** Statements of the same kind: they differ in their parameters only. *)
Definition same_kind (q q' : Statement) : bool :=
  match q, q' with
  | SelectData _, SelectData _
  | SelectCount _, SelectCount _
  | UpdateSession _ _ _, UpdateSession _ _ _
  | InsertSession _ _ _, InsertSession _ _ _
  | DeleteSession _, DeleteSession _
  | UpdateExpires _ _, UpdateExpires _ _
  | CountAll, CountAll
  | DeleteAll, DeleteAll
  | CreateTable, CreateTable
  | DropTable, DropTable => true
  | _, _ => false
  end.

(** Occurrences of a character in a string. *)
Fixpoint count_char (c : ascii) (s : string) : nat :=
  match s with
  | EmptyString => O
  | String c' s' => (if Ascii.eqb c c' then 1 else 0) + count_char c s'
  end.

(** The configured names hold no question mark. *)
Definition plain_names (s : Schema) : Prop :=
  count_char "?" (tableName s) = O
  /\ count_char "?" (session_id_column s) = O
  /\ count_char "?" (expires_column s) = O
  /\ count_char "?" (data_column s) = O.

(** ** Operations as data *)

(** The eight methods that issue a query, with their arguments. *)
Inductive Operation : Type :=
| OpGet (sid : string)
| OpSet (now : Z) (sid : string) (sess : value)
| OpDestroy (sid : string)
| OpTouch (now : Z) (sid : string) (sess : value)
| OpLength
| OpClear
| OpCreateDatabaseTable
| OpDropDatabaseTable.

Definition perform (rt : Runtime) (op : Operation) (store : Db2Store.t)
  : Outcome * Db2Store.t :=
  match op with
  | OpGet sid => Db2Store.get store sid
  | OpSet now sid sess => Db2Store.set rt now store sid sess
  | OpDestroy sid => Db2Store.destroy store sid
  | OpTouch now sid sess => Db2Store.touch rt now store sid sess
  | OpLength => Db2Store.length store
  | OpClear => Db2Store.clear store
  | OpCreateDatabaseTable => Db2Store.createDatabaseTable store
  | OpDropDatabaseTable => Db2Store.dropDatabaseTable store
  end.

(** Whether a method gets as far as its query: [set] and [touch] compute
    the expiry first and [set] serializes the session, and
    [dropDatabaseTable] checks [allowDrop]. *)
Definition reaches_query (rt : Runtime) (op : Operation) (store : Db2Store.t)
  : bool :=
  let expiry now sess :=
    match getExpires rt now sess (expiration (Db2Store.options store)) with
    | Normal _ => true
    | Throw _ => false
    end in
  match op with
  | OpSet now _ sess =>
      expiry now sess
      && (if JSON_stringify rt sess is Normal _ then true else false)
  | OpTouch now _ sess => expiry now sess
  | OpDropDatabaseTable => truthy (allowDrop (Db2Store.options store))
  | _ => true
  end.

(** The handle the constructor ends up with: the supplied connection, or
    what [ibmdb.openSync] returns for the connection string. *)
Definition resulting_handle (rt : Runtime) (given : option UserOptions)
    (connection : option Connection) : option Connection :=
  match connection with
  | Some c => Some c
  | None =>
      match ibmdb_openSync rt
              (connection_string (extend defaultOptions (default no_options given)))
      with
      | Normal c => Some c
      | Throw _ => None
      end
  end.

(** [set(sid, sess)] followed by [get(sid)] on the resulting store: the
    outcome of the [get]. *)
Definition set_then_get (rt : Runtime) (now : Z) (store : Db2Store.t)
    (sid : string) (sess : value) : Outcome :=
  fst (Db2Store.get (snd (Db2Store.set rt now store sid sess)) sid).

(** The row stored for a session id, if any. *)
Definition stored_row (store : Db2Store.t) (sid : string) : option Row :=
  match table (Db2Store.client store) with
  | Some t => t !! sid
  | None => None
  end.

(** ** Failed outcomes *)

(** A method failed when it threw or called back with an error. *)
Definition failed (o : Outcome) : bool :=
  match o with
  | Thrown _ => true
  | Called (Some _) _ => true
  | Called None _ => false
  end.

(** The methods that only read the table. *)
Definition read_only (op : Operation) : bool :=
  match op with
  | OpGet _ | OpLength => true
  | _ => false
  end.

(** ** Two readings of the source of the expiry *)

(** A field is present when the object has a property of that name. *)
Definition present_field (v : value) (k : string) : option value :=
  match v with
  | VObj ps => lookup_property k ps
  | _ => None
  end.

(** The source of the expiry as the specification words it: the
    [cookie.expires] field if present, else the [cookie._expires] field if
    present, else now plus the configured expiration. *)
Definition spec_expiry_source (now : Z) (sess : value) (expiration : Z) : value :=
  match present_field sess "cookie" with
  | Some cookie =>
      match present_field cookie "expires" with
      | Some e => e
      | None =>
          match present_field cookie "_expires" with
          | Some e' => e'
          | None => VNum (Fin (now + expiration))
          end
      end
  | None => VNum (Fin (now + expiration))
  end.

(** The source of the expiry with "present" read as "present and truthy". *)
Definition truthy_field (v : value) (k : string) : option value :=
  match present_field v k with
  | Some x => if truthy x then Some x else None
  | None => None
  end.

Definition truthy_expiry_source (now : Z) (sess : value) (expiration : Z) : value :=
  match truthy_field sess "cookie" with
  | Some cookie =>
      match truthy_field cookie "expires" with
      | Some e => e
      | None =>
          match truthy_field cookie "_expires" with
          | Some e' => e'
          | None => VNum (Fin (now + expiration))
          end
      end
  | None => VNum (Fin (now + expiration))
  end.

(** The timestamp of a source of the expiry, in milliseconds, as the
    specification speaks of it: the time of a Date object, a number taken
    as a time, the time that a string denotes, and for any other value the
    time of the Date made from it.  A time is a whole number of
    milliseconds in the range of dates, or [NaN]. *)
Definition timestamp (rt : Runtime) (source : value) : completion number :=
  match source with
  | VDate t => Normal (TimeClip t)
  | VNum n => Normal (TimeClip n)
  | VStr s => Normal (TimeClip (Date_parse rt s))
  | VUndefined => Normal NaN
  | VNull => Normal (Fin 0)
  | VBool b => Normal (Fin (if b then 1 else 0))
  | VBigInt _ => Throw (TypeError "Cannot convert a BigInt value to a number")
  | VArr _ | VObj _ => n ← Date_of_object rt source; Normal (TimeClip n)
  end.

(** [r] is [ms / 1000] rounded to the nearest integer, halves upwards. *)
Definition rounded_seconds (ms r : Z) : Prop :=
  1000 * r - 500 <= ms < 1000 * r + 500.

(** ** What a stored session reads back as *)

(** The properties of an object that [JSON.stringify] writes: one whose
    value is [undefined] is left out. *)
Definition written_members (image : value -> value)
  : list (string * value) -> list (string * value) :=
  fix each (ps : list (string * value)) : list (string * value) :=
    match ps with
    | [] => []
    | (k, x) :: ps' =>
        if x is VUndefined then each ps' else (k, image x) :: each ps'
    end.

Section Image.
Context (rt : Runtime).

(** The value that the text of [v] denotes: a Date has become its ISO
    string, [NaN], an invalid Date and an [undefined] array element have
    become [null], and [undefined] properties are gone. *)
Fixpoint JSON_image (v : value) : value :=
  match v with
  | VUndefined => VNull
  | VNum NaN => VNull
  | VDate t =>
      match TimeClip t with
      | Fin ms => VStr (Date_toISOString rt ms)
      | Frac _ _ | NaN => VNull
      end
  | VArr elements => VArr (map JSON_image elements)
  | VObj properties => VObj (written_members JSON_image properties)
  | _ => v
  end.

End Image.

(** Whether a value holds a BigInt where [JSON.stringify] gets to. *)
Fixpoint contains_bigint (v : value) : bool :=
  match v with
  | VBigInt _ => true
  | VArr elements => existsb contains_bigint elements
  | VObj properties => existsb (fun p => contains_bigint (snd p)) properties
  | _ => false
  end.

(** The values a session is made of: JSON data, and besides [undefined],
    [NaN] and Date objects. *)
Fixpoint session_data (v : value) : bool :=
  match v with
  | VUndefined | VNull | VBool _ | VStr _ | VDate _ => true
  | VNum NaN => true
  | VNum n => safe_number n
  | VBigInt _ => false
  | VArr elements => forallb session_data elements
  | VObj properties =>
      distinct_names properties && enumeration_order None properties
      && forallb (fun p => session_data (snd p)) properties
  end.

(** Plain data: no [undefined], no BigInt, no Date object and no [NaN]
    anywhere in the value. *)
Fixpoint plain_data (v : value) : bool :=
  match v with
  | VNull | VBool _ | VStr _ => true
  | VNum NaN => false
  | VNum _ => true
  | VArr elements => forallb plain_data elements
  | VObj properties => forallb (fun p => plain_data (snd p)) properties
  | VUndefined | VBigInt _ | VDate _ => false
  end.

(** ** Sample data *)

(** A runtime that recognises no date text and has no database to open. *)
Definition plain_runtime : Runtime := {|
  Date_parse := fun _ => NaN;
  Date_of_object := fun _ => Normal NaN;
  Date_toISOString := fun _ => EmptyString;
  ibmdb_openSync := fun _ => Throw (DriverError "08001")
|}.

Definition live_connection : Connection :=
  {| connected := true; table := Some ∅; issued := [] |}.

Definition closed_connection : Connection :=
  {| connected := false; table := Some ∅; issued := [] |}.

(** A store with default options on a live connection to an empty
    table. *)
Definition fresh_store : Db2Store.t :=
  {| Db2Store.options := defaultOptions;
     Db2Store.client := live_connection;
     Db2Store.emitted := [] |}.

Definition closed_store : Db2Store.t :=
  {| Db2Store.options := defaultOptions;
     Db2Store.client := closed_connection;
     Db2Store.emitted := [] |}.

(** A session as the middleware hands it over. *)
Definition sample_session : value :=
  VObj [("cookie", VObj [("originalMaxAge", VNum (Fin 2000));
                         ("expires", VNull);
                         ("httpOnly", VBool true);
                         ("path", VStr "/")]);
        ("name", VStr "tj");
        ("rating", VNum (Frac 45 1))].

Fixpoint filler (n : nat) : string :=
  match n with
  | O => EmptyString
  | S n' => String "x" (filler n')
  end.

(** A session whose text is longer than the [data] column. *)
Definition large_session : value :=
  VObj [("blob", VStr (filler (Z.to_nat 8100)))].

(** A session with an object that cannot be serialized. *)
Definition unserializable_session : value :=
  VObj [("cookie", VObj [("expires", VNull)]); ("visits", VBigInt 12)].

(** A session whose expiry hint is a BigInt. *)
Definition bigint_expiry_session : value :=
  VObj [("cookie", VObj [("expires", VBigInt 5)])].

(** A table with one row whose [data] is not JSON text. *)
Definition corrupt_store : Db2Store.t :=
  {| Db2Store.options := defaultOptions;
     Db2Store.client :=
       {| connected := true;
          table := Some {[ "s1" := {| row_expires := 0; row_data := Some "{oops" |} ]};
          issued := [] |};
     Db2Store.emitted := [] |}.

(** A store whose configuration allows dropping the table. *)
Definition droppable_store : Db2Store.t :=
  {| Db2Store.options :=
       extend defaultOptions
         {| given_expiration := None; given_tableName := None;
            given_session_id_column := None; given_expires_column := None;
            given_data_column := None; given_allowDrop := Some (VBool true);
            given_dsn := None; given_database := None; given_user := None;
            given_password := None; given_host := None; given_port := None |};
     Db2Store.client := live_connection;
     Db2Store.emitted := [] |}.

(** A session whose cookie carries the epoch as the number 0. *)
Definition epoch_number_session : value :=
  VObj [("cookie", VObj [("expires", VNum (Fin 0))])].

(** A session whose [cookie.expires] is 0 and whose [cookie._expires] is
    the Date object of the epoch. *)
Definition epoch_date_session : value :=
  VObj [("cookie", VObj [("expires", VNum (Fin 0)); ("_expires", VDate (Fin 0))])].

(** A session as the session middleware builds it: the cookie carries its
    expiry as a Date, and a property may be [undefined]. *)
Definition dated_session : value :=
  VObj [("cookie", VObj [("originalMaxAge", VNum (Fin 60000));
                         ("expires", VDate (Fin 1060000));
                         ("domain", VUndefined);
                         ("path", VStr "/")]);
        ("views", VNum (Fin 3))].

(** A runtime whose ISO strings are a fixed text. *)
Definition stamp_runtime : Runtime := {|
  Date_parse := fun _ => NaN;
  Date_of_object := fun _ => Normal NaN;
  Date_toISOString := fun _ => "1970-01-01T00:17:40.000Z";
  ibmdb_openSync := fun _ => Throw (DriverError "08001")
|}.

(** ** Auxiliary definitions for the proofs *)

(** *** Induction on values *)

Section ValueInduction.
Variable P : value -> Prop.
Hypothesis case_undefined : P VUndefined.
Hypothesis case_null : P VNull.
Hypothesis case_bool : forall b, P (VBool b).
Hypothesis case_num : forall n, P (VNum n).
Hypothesis case_bigint : forall z, P (VBigInt z).
Hypothesis case_str : forall s, P (VStr s).
Hypothesis case_date : forall t, P (VDate t).
Hypothesis case_arr : forall l, Forall P l -> P (VArr l).
Hypothesis case_obj : forall ps, Forall (fun p => P (snd p)) ps -> P (VObj ps).

Fixpoint value_ind (v : value) : P v :=
  match v with
  | VUndefined => case_undefined
  | VNull => case_null
  | VBool b => case_bool b
  | VNum n => case_num n
  | VBigInt z => case_bigint z
  | VStr s => case_str s
  | VDate t => case_date t
  | VArr l =>
      case_arr l
        ((fix all (l : list value) : Forall P l :=
            match l with
            | [] => @List.Forall_nil _ P
            | x :: l' => @List.Forall_cons _ P x l' (value_ind x) (all l')
            end) l)
  | VObj ps =>
      case_obj ps
        ((fix all (ps : list (string * value)) : Forall (fun p => P (snd p)) ps :=
            match ps with
            | [] => @List.Forall_nil _ _
            | p :: ps' => @List.Forall_cons _ _ p ps' (value_ind (snd p)) (all ps')
            end) ps)
  end.
End ValueInduction.

Definition define_member (acc : list (string * value)) (p : string * value)
  : list (string * value) :=
  define_property (fst p) (snd p) acc.

(** The first character of the text of a value. *)
Definition value_start (c : ascii) : bool :=
  match c with
  | "n"%char | "t"%char | "f"%char | dquote | "["%char | "{"%char | "-"%char
  | "0"%char | "1"%char | "2"%char | "3"%char | "4"%char
  | "5"%char | "6"%char | "7"%char | "8"%char | "9"%char => true
  | _ => false
  end.

Definition number_start (c : ascii) : bool :=
  match c with
  | "-"%char
  | "0"%char | "1"%char | "2"%char | "3"%char | "4"%char
  | "5"%char | "6"%char | "7"%char | "8"%char | "9"%char => true
  | _ => false
  end.

(** A text at whose head no run of digits goes on. *)
Definition stops_digits (s : text) : Prop :=
  match s with
  | [] => True
  | c :: _ => digit_of c = None /\ digit_value c = None
  end.

(** A time value is a whole number of milliseconds in the range of
    dates, or [NaN]. *)
Definition time_value (n : number) : Prop :=
  match n with
  | Fin z => Z.abs z <= 8640000000000000
  | Frac _ _ => False
  | NaN => True
  end.

Definition elements_need (l : list value) : nat :=
  (fix sum (l : list value) : nat :=
     match l with
     | [] => O
     | x :: l' => S (need x + sum l')
     end) l.

Definition members_need (ps : list (string * value)) : nat :=
  (fix sum (ps : list (string * value)) : nat :=
     match ps with
     | [] => O
     | (_, x) :: ps' => S (need x + sum ps')
     end) ps.

(** What the induction establishes for a value: its text exists, starts
    like a value, is long enough to pay for the fuel, and reads back. *)
Definition reads_back (rt : Runtime) (v : value) : Prop :=
  json_data v = true ->
  exists t,
    SerializeJSONProperty rt v = Normal (Some t) /\
    (exists c s, t = c :: s /\ value_start c = true) /\
    (need v <= 2 * length t)%nat /\
    forall fuel rest,
      (need v <= fuel)%nat -> is_value_end rest = true ->
      parse_value fuel (t ++ rest) = Some (v, rest).

Definition after_query (store : Db2Store.t) (t : option (gmap string Row))
    (qs : list Statement) : Db2Store.t :=
  Db2Store.with_client store
    {| connected := true; table := t;
       issued := issued (Db2Store.client store) ++ qs |}.

(** * Properties *)

(** ** String literals read back *)

Lemma parse_string_chars_escape (c : ascii) (rest : text) :
  parse_string_chars (escape_char c ++ rest) =
  match parse_string_chars rest with
  | Some (str, rest') => Some (String c str, rest')
  | None => None
  end.
Proof. destruct c as [[] [] [] [] [] [] [] []]; reflexivity. Qed.

Lemma parse_string_chars_quote (s : string) (rest : text) :
  parse_string_chars (quote_chars s ++ dquote :: rest) = Some (s, rest).
Proof.
  induction s as [|c s IH]; [reflexivity|].
  change (quote_chars (String c s)) with (escape_char c ++ quote_chars s).
  rewrite <- app_assoc, parse_string_chars_escape, IH. reflexivity.
Qed.

(** ** Numerals read back *)

Lemma value_end_cases (s : text) :
  is_value_end s = true ->
  s = [] \/ exists c s', s = c :: s' /\
    (c = ","%char \/ c = "]"%char \/ c = "}"%char).
Proof.
  destruct s as [|c s']; [by left|]. simpl. intros H. right. exists c, s'.
  split; [done|].
  apply orb_true_iff in H as [H|H]; [apply orb_true_iff in H as [H|H]|];
    apply Ascii.eqb_eq in H; auto.
Qed.

Lemma value_end_stops_digits (s : text) : is_value_end s = true -> stops_digits s.
Proof.
  intros H. destruct (value_end_cases s H) as [->|(c & s' & -> & [->|[->| ->]])];
    by simpl.
Qed.

Lemma read_digits_stop (s : text) : stops_digits s -> read_digits s = (Decimal.Nil, s).
Proof. destruct s as [|c s]; [done|]. simpl. by intros [-> _]. Qed.

Lemma read_run_stop (s : text) : stops_digits s -> read_run s = ([], s).
Proof. destruct s as [|c s]; [done|]. simpl. by intros [_ ->]. Qed.

Lemma read_digits_uint_text (d : Decimal.uint) (rest : text) :
  stops_digits rest -> read_digits (uint_text d ++ rest) = (d, rest).
Proof.
  intros H. induction d; simpl; rewrite ?IHd; auto using read_digits_stop.
Qed.

Lemma unorm_to_uint (p : positive) :
  Decimal.unorm (Pos.to_uint p) = Pos.to_uint p.
Proof.
  rewrite <- (DecimalPos.Unsigned.to_of (Pos.to_uint p)).
  rewrite DecimalPos.Unsigned.of_to. reflexivity.
Qed.

Lemma uint_beq_refl (d : Decimal.uint) : Decimal.uint_beq d d = true.
Proof. by apply Decimal.internal_uint_dec_lb. Qed.

(** The digits of a natural number: canonical, and they read back. *)
Lemma digits_text_uint (z : Z) :
  0 <= z ->
  exists d, digits_text z = uint_text d /\ d <> Decimal.Nil
            /\ Decimal.unorm d = d /\ Z.of_uint d = z.
Proof.
  intros Hz. unfold digits_text. destruct z as [|p|p]; [| |lia]; simpl Z.to_int.
  - by exists (Decimal.D0 Decimal.Nil).
  - exists (Pos.to_uint p). split_and!; [done| | |].
    + apply DecimalPos.Unsigned.to_uint_nonnil.
    + apply unorm_to_uint.
    + apply (DecimalZ.of_to (Z.pos p)).
Qed.

Lemma digits_text_start (z : Z) :
  0 <= z -> exists c s, digits_text z = c :: s /\ digit_of c <> None.
Proof.
  intros Hz. destruct (digits_text_uint z Hz) as (d & -> & Hnil & _).
  destruct d; try done; simpl; eauto.
Qed.

Lemma digit_value_char (d : Z) :
  0 <= d <= 9 -> digit_value (digit_char d) = Some d.
Proof.
  intros H.
  assert (d = 0 \/ d = 1 \/ d = 2 \/ d = 3 \/ d = 4 \/ d = 5 \/ d = 6 \/ d = 7
          \/ d = 8 \/ d = 9) as Hd by lia.
  destruct Hd as [->|[->|[->|[->|[->|[->|[->|[->|[->| ->]]]]]]]]]; reflexivity.
Qed.

Lemma length_frac_digits (p : nat) (f : Z) : length (frac_digits p f) = p.
Proof. revert f. induction p as [|p IH]; intros f; simpl; [done|]. by rewrite IH. Qed.

Lemma read_run_frac_text (p : nat) (f : Z) (rest : text) :
  stops_digits rest -> 0 <= f < 10 ^ Z.of_nat p ->
  read_run (frac_text p f ++ rest) = (frac_digits p f, rest).
Proof.
  intros Hrest. revert f. induction p as [|p IH]; intros f Hf.
  - by apply read_run_stop.
  - unfold frac_text. simpl.
    assert (0 < 10 ^ Z.of_nat p) as Hpos by (apply Z.pow_pos_nonneg; lia).
    assert (10 ^ Z.of_nat (S p) = 10 * 10 ^ Z.of_nat p) as Hpow.
    { rewrite Nat2Z.inj_succ, Z.pow_succ_r; lia. }
    rewrite digit_value_char.
    + fold (frac_text p (f mod 10 ^ Z.of_nat p)). rewrite IH; [done|].
      by apply Z.mod_pos_bound.
    + split; [apply Z.div_pos; lia|].
      apply Z.lt_succ_r. apply Z.div_lt_upper_bound; lia.
Qed.

Lemma run_value_frac_digits (p : nat) (f acc : Z) :
  0 <= f < 10 ^ Z.of_nat p ->
  fold_left (fun acc d => acc * 10 + d) (frac_digits p f) acc
  = acc * 10 ^ Z.of_nat p + f.
Proof.
  revert f acc. induction p as [|p IH]; intros f acc Hf.
  - simpl in *. lia.
  - simpl frac_digits. simpl fold_left.
    assert (0 < 10 ^ Z.of_nat p) as Hpos by (apply Z.pow_pos_nonneg; lia).
    assert (10 ^ Z.of_nat (S p) = 10 * 10 ^ Z.of_nat p) as Hpow.
    { rewrite Nat2Z.inj_succ, Z.pow_succ_r; lia. }
    rewrite IH by (by apply Z.mod_pos_bound). rewrite Hpow.
    pose proof (Z.div_mod f (10 ^ Z.of_nat p) ltac:(lia)). nia.
Qed.

Lemma parse_fraction_none (s : text) :
  is_value_end s = true -> parse_fraction s = Some ([], s).
Proof.
  intros H. destruct (value_end_cases s H) as [->|(c & s' & -> & [->|[->| ->]])];
    reflexivity.
Qed.

Lemma parse_exponent_none (s : text) :
  is_value_end s = true -> parse_exponent s = Some (0, s).
Proof.
  intros H. destruct (value_end_cases s H) as [->|(c & s' & -> & [->|[->| ->]])];
    reflexivity.
Qed.

Lemma parse_unsigned_integer (negative : bool) (z : Z) (rest : text) :
  0 <= z -> is_value_end rest = true ->
  parse_unsigned negative (digits_text z ++ rest)
  = Some (Fin (if negative then - z else z), rest).
Proof.
  intros Hz Hend. destruct (digits_text_uint z Hz) as (d & -> & Hnil & Hnorm & Hd).
  unfold parse_unsigned.
  rewrite read_digits_uint_text by by apply value_end_stops_digits.
  replace (Decimal.uint_beq d Decimal.Nil) with false.
  2: { symmetry. apply not_true_is_false. intros E.
       by apply Decimal.internal_uint_dec_bl in E. }
  rewrite Hnorm, uint_beq_refl. simpl negb. cbv iota.
  rewrite parse_fraction_none, parse_exponent_none by done.
  simpl length. unfold run_value. simpl fold_left. rewrite Hd.
  unfold decimal. simpl.
  f_equal. f_equal. f_equal. destruct negative; lia.
Qed.

Lemma strip_zeros_none (k : nat) (m : Z) :
  m mod 10 <> 0 -> strip_zeros (S k) m = (m, S k).
Proof. intros H. simpl. by apply Z.eqb_neq in H as ->. Qed.

Lemma decimal_fraction (m : Z) (p : positive) :
  m mod 10 <> 0 -> decimal m (0 - Z.pos p) = Frac m p.
Proof.
  intros H. unfold decimal.
  replace (0 <=? 0 - Z.pos p) with false by (symmetry; apply Z.leb_gt; lia).
  replace (Z.to_nat (- (0 - Z.pos p))) with (Pos.to_nat p) by lia.
  destruct (Pos.to_nat p) as [|k] eqn:Hk; [lia|].
  rewrite strip_zeros_none by done.
  by rewrite <- Hk, Pos2Nat.id.
Qed.

Lemma parse_unsigned_fraction (negative : bool) (i f : Z) (p : positive)
    (rest : text) :
  0 <= i -> 0 <= f < 10 ^ Z.pos p -> is_value_end rest = true ->
  parse_unsigned negative
    ((digits_text i ++ "."%char :: frac_text (Pos.to_nat p) f) ++ rest)
  = Some (decimal (if negative then - (i * 10 ^ Z.pos p + f)
                   else i * 10 ^ Z.pos p + f) (0 - Z.pos p), rest).
Proof.
  intros Hi Hf Hend. destruct (digits_text_uint i Hi) as (d & -> & Hnil & Hnorm & Hd).
  unfold parse_unsigned. rewrite <- app_assoc.
  rewrite read_digits_uint_text by by simpl.
  replace (Decimal.uint_beq d Decimal.Nil) with false.
  2: { symmetry. apply not_true_is_false. intros E.
       by apply Decimal.internal_uint_dec_bl in E. }
  rewrite Hnorm, uint_beq_refl. simpl negb. cbv iota.
  rewrite <- (positive_nat_Z p) in Hf.
  simpl app. unfold parse_fraction.
  rewrite read_run_frac_text by (by apply value_end_stops_digits || done).
  destruct (frac_digits (Pos.to_nat p) f) as [|f0 fs] eqn:Hfs.
  { apply (f_equal length) in Hfs. rewrite length_frac_digits in Hfs.
    simpl in Hfs. lia. }
  rewrite <- Hfs. rewrite parse_exponent_none by done.
  rewrite length_frac_digits, positive_nat_Z.
  unfold run_value. rewrite run_value_frac_digits by done.
  rewrite positive_nat_Z, Hd. reflexivity.
Qed.

Lemma parse_number_unsigned (c : ascii) (s : text) :
  digit_of c <> None -> parse_number (c :: s) = parse_unsigned false (c :: s).
Proof.
  destruct c as [[] [] [] [] [] [] [] []]; try done.
Qed.

Lemma parse_number_text (n : number) (rest : text) :
  safe_number n = true -> is_value_end rest = true ->
  parse_number (number_text n ++ rest) = Some (n, rest).
Proof.
  intros Hsafe Hend. destruct n as [z|m p|]; [| |done].
  - simpl in Hsafe. apply Z.leb_le in Hsafe.
    unfold number_text, magnitude_text, is_negative.
    replace (Z.abs z <? 10 ^ 21) with true by (symmetry; apply Z.ltb_lt; lia).
    destruct (Z.ltb_spec z 0) as [Hneg|Hpos].
    + change (parse_number (("-"%char :: digits_text (Z.abs z)) ++ rest))
        with (parse_unsigned true (digits_text (Z.abs z) ++ rest)).
      rewrite parse_unsigned_integer by (done || lia). do 3 f_equal. lia.
    + destruct (digits_text_start (Z.abs z)) as (c & s & Hs & Hc); [lia|].
      rewrite Hs. simpl app. rewrite parse_number_unsigned by done.
      change (c :: s ++ rest) with ((c :: s) ++ rest). rewrite <- Hs.
      rewrite parse_unsigned_integer by (done || lia). do 3 f_equal. lia.
  - simpl in Hsafe. apply andb_true_iff in Hsafe as [Hsafe Hsmall].
    apply andb_true_iff in Hsafe as [Hcanon Hdigits].
    apply negb_true_iff, Z.eqb_neq in Hcanon.
    apply Z.ltb_lt in Hdigits. apply Z.leb_le in Hsmall.
    assert (0 < 10 ^ Z.pos p) as Hscale by (apply Z.pow_pos_nonneg; lia).
    unfold number_text, magnitude_text, is_negative.
    replace ((10 ^ Z.pos p <=? Z.abs m * 10 ^ 6)
             && (Z.abs m <? 10 ^ 21 * 10 ^ Z.pos p)) with true.
    2: { symmetry. apply andb_true_iff. split; [by apply Z.leb_le|].
         apply Z.ltb_lt. nia. }
    pose proof (Z.div_mod (Z.abs m) (10 ^ Z.pos p) ltac:(lia)) as Hdm.
    pose proof (Z.mod_pos_bound (Z.abs m) (10 ^ Z.pos p) Hscale) as Hmod.
    assert (0 <= Z.abs m / 10 ^ Z.pos p) as Hdiv by (apply Z.div_pos; lia).
    destruct (Z.ltb_spec m 0) as [Hneg|Hpos].
    + change (parse_number (("-"%char :: ?t) ++ rest))
        with (parse_unsigned true (t ++ rest)).
      rewrite parse_unsigned_fraction by done.
      replace (- (Z.abs m / 10 ^ Z.pos p * 10 ^ Z.pos p + Z.abs m mod 10 ^ Z.pos p))
        with m by lia.
      by rewrite decimal_fraction.
    + destruct (digits_text_start (Z.abs m / 10 ^ Z.pos p)) as (c & s & Hs & Hc);
        [lia|].
      rewrite Hs. simpl app. rewrite parse_number_unsigned by done.
      change (c :: (s ++ ?t) ++ rest) with (((c :: s) ++ t) ++ rest). rewrite <- Hs.
      rewrite parse_unsigned_fraction by done.
      replace (Z.abs m / 10 ^ Z.pos p * 10 ^ Z.pos p + Z.abs m mod 10 ^ Z.pos p)
        with m by lia.
      by rewrite decimal_fraction.
Qed.

(** ** Properties keep their order *)

Lemma lookup_property_app (k : string) (xs ys : list (string * value)) :
  lookup_property k (xs ++ ys) =
  match lookup_property k xs with
  | Some v => Some v
  | None => lookup_property k ys
  end.
Proof.
  induction xs as [|[k' v'] xs IH]; simpl; [done|].
  by destruct (String.eqb k k').
Qed.

Lemma distinct_names_fresh (acc ps : list (string * value)) (k : string) (v : value) :
  distinct_names (acc ++ (k, v) :: ps) = true -> lookup_property k acc = None.
Proof.
  induction acc as [|[k' v'] acc IH]; simpl; [done|].
  intros H. apply andb_true_iff in H as [Hk' Hd].
  rewrite lookup_property_app in Hk'. simpl in Hk'.
  destruct (String.eqb_spec k k') as [->|Hne].
  - destruct (lookup_property k' acc); [done|].
    by rewrite String.eqb_refl in Hk'.
  - by apply IH.
Qed.

Lemma names_only_app (xs ps : list (string * value)) (k : string) (v : value) :
  names_only (xs ++ (k, v) :: ps) = true -> array_index k = None.
Proof.
  induction xs as [|[k' v'] xs IH]; simpl.
  - by destruct (array_index k).
  - destruct (array_index k'); [done|]. apply IH.
Qed.

Lemma enumeration_order_app_lt (xs ps : list (string * value)) (k : string)
    (v : value) (i j : N) :
  enumeration_order (Some j) (xs ++ (k, v) :: ps) = true ->
  array_index k = Some i -> (j < i)%N.
Proof.
  revert j. induction xs as [|[k' v'] xs IH]; simpl; intros j H Hk.
  - rewrite Hk in H. apply andb_true_iff in H as [H _]. by apply N.ltb_lt.
  - destruct (array_index k') as [j'|] eqn:Hk'.
    + apply andb_true_iff in H as [Hlt H]. apply N.ltb_lt in Hlt.
      specialize (IH _ H Hk). lia.
    + apply names_only_app in H. congruence.
Qed.

Lemma insert_index_last (prev : option N) (acc ps : list (string * value))
    (k : string) (v : value) (i : N) :
  enumeration_order prev (acc ++ (k, v) :: ps) = true ->
  array_index k = Some i ->
  insert_index i k v acc = acc ++ [(k, v)].
Proof.
  revert prev. induction acc as [|[k' v'] acc IH]; simpl; intros prev H Hk; [done|].
  destruct (array_index k') as [j|] eqn:Hk'.
  - apply andb_true_iff in H as [_ H].
    pose proof (enumeration_order_app_lt _ _ _ _ _ _ H Hk) as Hlt.
    apply N.ltb_lt in Hlt. rewrite Hlt. f_equal. by eapply IH.
  - apply names_only_app in H. congruence.
Qed.

Lemma define_property_last (acc ps : list (string * value)) (k : string) (v : value) :
  distinct_names (acc ++ (k, v) :: ps) = true ->
  enumeration_order None (acc ++ (k, v) :: ps) = true ->
  define_property k v acc = acc ++ [(k, v)].
Proof.
  intros Hd Ho. unfold define_property.
  rewrite (distinct_names_fresh _ _ _ _ Hd).
  destruct (array_index k) as [i|] eqn:Hk; [|done].
  by eapply insert_index_last.
Qed.

Lemma define_members_in_order (ps acc : list (string * value)) :
  distinct_names (acc ++ ps) = true ->
  enumeration_order None (acc ++ ps) = true ->
  fold_left define_member ps acc = acc ++ ps.
Proof.
  revert acc. induction ps as [|[k v] ps IH]; intros acc Hd Ho; simpl.
  - by rewrite app_nil_r.
  - unfold define_member at 2. simpl.
    rewrite (define_property_last _ _ _ _ Hd Ho).
    rewrite IH; rewrite <- app_assoc; done.
Qed.

(** ** [JSON.parse] reads back what [JSON.stringify] writes *)

Lemma parse_value_number (fuel : nat) (c : ascii) (s : text) :
  number_start c = true ->
  parse_value (S fuel) (c :: s) =
  match parse_number (c :: s) with
  | Some (n, rest) => Some (VNum n, rest)
  | None => None
  end.
Proof.
  destruct c as [[] [] [] [] [] [] [] []]; try discriminate; reflexivity.
Qed.

Lemma parse_value_array (fuel : nat) (c : ascii) (s : text) :
  value_start c = true ->
  parse_value (S fuel) ("["%char :: c :: s) =
  match parse_elements fuel (c :: s) with
  | Some (vs, rest) => Some (VArr vs, rest)
  | None => None
  end.
Proof.
  destruct c as [[] [] [] [] [] [] [] []]; try discriminate; reflexivity.
Qed.

Lemma parse_value_object (fuel : nat) (s : text) :
  parse_value (S fuel) ("{"%char :: dquote :: s) =
  parse_members fuel (dquote :: s) [].
Proof. reflexivity. Qed.

Lemma parse_value_string (fuel : nat) (s : text) :
  parse_value (S fuel) (dquote :: s) =
  match parse_string_chars s with
  | Some (str, rest) => Some (VStr str, rest)
  | None => None
  end.
Proof. reflexivity. Qed.

Lemma parse_elements_unfold (fuel : nat) (s : text) :
  parse_elements (S fuel) s =
  match parse_value fuel s with
  | Some (v, rest) =>
      match skip_ws rest with
      | ","%char :: rest' =>
          match parse_elements fuel rest' with
          | Some (vs, rest'') => Some (v :: vs, rest'')
          | None => None
          end
      | "]"%char :: rest' => Some ([v], rest')
      | _ => None
      end
  | None => None
  end.
Proof. reflexivity. Qed.

Lemma parse_members_quoted (fuel : nat) (k : string) (tx s : text) (v : value)
    (acc : list (string * value)) :
  parse_value fuel (tx ++ s) = Some (v, s) ->
  parse_members (S fuel) ((QuoteJSONString k ++ ":"%char :: tx) ++ s) acc =
  match skip_ws s with
  | ","%char :: s' => parse_members fuel s' (define_property k v acc)
  | "}"%char :: s' => Some (VObj (define_property k v acc), s')
  | _ => None
  end.
Proof.
  intros Hv. unfold QuoteJSONString.
  replace ((("034"%char :: quote_chars k ++ ["034"%char]) ++ ":"%char :: tx) ++ s)
    with ("034"%char :: quote_chars k ++ "034"%char :: ":"%char :: (tx ++ s)).
  2: { simpl. f_equal. rewrite <- !app_assoc. reflexivity. }
  change (parse_members (S fuel) ("034"%char :: ?x) acc)
    with (match parse_string_chars x with
          | Some (k, s2) =>
              match skip_ws s2 with
              | ":"%char :: s3 =>
                  match parse_value fuel s3 with
                  | Some (v, s4) =>
                      let acc' := define_property k v acc in
                      match skip_ws s4 with
                      | ","%char :: s5 => parse_members fuel s5 acc'
                      | "}"%char :: s5 => Some (VObj acc', s5)
                      | _ => None
                      end
                  | None => None
                  end
              | _ => None
              end
          | None => None
          end).
  rewrite parse_string_chars_quote.
  change (skip_ws (":"%char :: tx ++ s)) with (":"%char :: tx ++ s). cbv iota beta.
  rewrite Hv. reflexivity.
Qed.

Lemma digit_number_start (c : ascii) :
  digit_of c <> None -> number_start c = true.
Proof. destruct c as [[] [] [] [] [] [] [] []]; done. Qed.

Lemma number_text_start (n : number) :
  safe_number n = true ->
  exists c s, number_text n = c :: s /\ number_start c = true.
Proof.
  intros Hsafe. unfold number_text.
  destruct (is_negative n); [by eexists _, _|].
  destruct n as [z|m p|]; [| |done]; simpl in Hsafe; unfold magnitude_text.
  - apply Z.leb_le in Hsafe.
    replace (Z.abs z <? 10 ^ 21) with true by (symmetry; apply Z.ltb_lt; lia).
    destruct (digits_text_start (Z.abs z)) as (c & s & -> & Hc); [lia|].
    eauto using digit_number_start.
  - apply andb_true_iff in Hsafe as [Hsafe Hsmall].
    apply andb_true_iff in Hsafe as [_ Hdigits].
    apply Z.ltb_lt in Hdigits. apply Z.leb_le in Hsmall.
    assert (0 < 10 ^ Z.pos p) as Hscale by (apply Z.pow_pos_nonneg; lia).
    replace ((10 ^ Z.pos p <=? Z.abs m * 10 ^ 6)
             && (Z.abs m <? 10 ^ 21 * 10 ^ Z.pos p)) with true.
    2: { symmetry. apply andb_true_iff. split; [by apply Z.leb_le|].
         apply Z.ltb_lt. nia. }
    destruct (digits_text_start (Z.abs m / 10 ^ Z.pos p)) as (c & s & -> & Hc).
    { apply Z.div_pos; lia. }
    simpl. eauto using digit_number_start.
Qed.

Lemma number_start_value_start (c : ascii) :
  number_start c = true -> value_start c = true.
Proof. destruct c as [[] [] [] [] [] [] [] []]; try discriminate; reflexivity. Qed.

Section ReadBack.
Context (rt : Runtime).

Lemma elements_read_back (l : list value) :
  Forall (reads_back rt) l -> forallb json_data l = true ->
  exists parts,
    serialize_elements (SerializeJSONProperty rt) l = Normal parts /\
    (l = [] -> parts = []) /\
    (l <> [] ->
     (exists c s, join_comma parts = c :: s /\ value_start c = true) /\
     (elements_need l <= 2 * length (join_comma parts) + 1)%nat /\
     forall fuel rest,
       (elements_need l <= fuel)%nat ->
       parse_elements fuel (join_comma parts ++ "]"%char :: rest) = Some (l, rest)).
Proof.
  induction 1 as [|x l Hx Hl IH]; intros Hdata.
  - exists []. by split_and!.
  - simpl in Hdata. apply andb_true_iff in Hdata as [Hdx Hdl].
    destruct (Hx Hdx) as (t & Ht & (c & s & -> & Hc) & Hlen & Hparse).
    destruct (IH Hdl) as (parts & Hparts & Hnil & Hcons).
    exists ((c :: s) :: parts). split.
    { simpl. rewrite Ht. simpl. rewrite Hparts. reflexivity. }
    split; [done|]. intros _.
    destruct l as [|y l'].
    + rewrite (Hnil eq_refl). change (join_comma [?p]) with p. split; [eauto|]. split.
      { simpl in *. lia. }
      intros fuel rest Hfuel. destruct fuel as [|fuel]; [simpl in Hfuel; lia|].
      rewrite parse_elements_unfold, Hparse; [reflexivity| |reflexivity].
      simpl in Hfuel. lia.
    + destruct Hcons as ((c' & s' & Hj & Hc') & Hlen' & Hparse'); [done|].
      assert (join_comma ((c :: s) :: parts)
              = (c :: s) ++ ","%char :: join_comma parts) as ->.
      { destruct parts; [discriminate Hj|reflexivity]. }
      split; [simpl; eauto|]. split.
      { change (elements_need (x :: y :: l'))
          with (S (need x + elements_need (y :: l'))).
        rewrite length_app. simpl length in *. lia. }
      intros fuel rest Hfuel. destruct fuel as [|fuel]; [simpl in Hfuel; lia|].
      change (elements_need (x :: y :: l'))
        with (S (need x + elements_need (y :: l'))) in Hfuel.
      rewrite <- app_assoc.
      rewrite parse_elements_unfold, Hparse; [| lia | reflexivity].
      change (skip_ws ((","%char :: ?a) ++ ?b)) with (","%char :: (a ++ b)).
      cbv iota beta.
      rewrite Hparse' by lia. reflexivity.
Qed.

Lemma members_read_back (ps : list (string * value)) :
  Forall (fun p => reads_back rt (snd p)) ps ->
  forallb (fun p => json_data (snd p)) ps = true ->
  exists parts,
    serialize_members (SerializeJSONProperty rt) ps = Normal parts /\
    (ps = [] -> parts = []) /\
    (ps <> [] ->
     (exists s, join_comma parts = dquote :: s) /\
     (members_need ps <= 2 * length (join_comma parts) + 1)%nat /\
     forall fuel rest acc,
       (members_need ps <= fuel)%nat ->
       parse_members fuel (join_comma parts ++ "}"%char :: rest) acc
       = Some (VObj (fold_left define_member ps acc), rest)).
Proof.
  induction 1 as [|[k x] ps Hx Hps IH]; intros Hdata.
  - exists []. by split_and!.
  - simpl in Hdata, Hx. apply andb_true_iff in Hdata as [Hdx Hdps].
    destruct (Hx Hdx) as (t & Ht & _ & Hlen & Hparse).
    destruct (IH Hdps) as (parts & Hparts & Hnil & Hcons).
    exists ((QuoteJSONString k ++ ":"%char :: t) :: parts). split.
    { simpl. rewrite Ht. simpl. rewrite Hparts. reflexivity. }
    split; [done|]. intros _.
    destruct ps as [|[k' y] ps'].
    + rewrite (Hnil eq_refl). change (join_comma [?p]) with p. split; [by eexists|]. split.
      { change (members_need [(k, x)]) with (S (need x + 0)).
        unfold QuoteJSONString.
        repeat first [rewrite length_app | progress simpl length]. lia. }
      intros fuel rest acc Hfuel. destruct fuel as [|fuel]; [simpl in Hfuel; lia|].
      rewrite (parse_members_quoted _ _ _ _ x); [reflexivity|].
      apply Hparse; [simpl in Hfuel; lia|reflexivity].
    + destruct Hcons as ((s' & Hj) & Hlen' & Hparse'); [done|].
      assert (join_comma ((QuoteJSONString k ++ ":"%char :: t) :: parts)
              = (QuoteJSONString k ++ ":"%char :: t)
                ++ ","%char :: join_comma parts) as ->.
      { destruct parts; [discriminate Hj|reflexivity]. }
      split; [by eexists|]. split.
      { change (members_need ((k, x) :: (k', y) :: ps'))
          with (S (need x + members_need ((k', y) :: ps'))).
        unfold QuoteJSONString. simpl length in Hlen.
        repeat first [rewrite length_app | progress simpl length]. lia. }
      intros fuel rest acc Hfuel. destruct fuel as [|fuel]; [simpl in Hfuel; lia|].
      change (members_need ((k, x) :: (k', y) :: ps'))
        with (S (need x + members_need ((k', y) :: ps'))) in Hfuel.
      rewrite <- app_assoc.
      rewrite (parse_members_quoted _ _ _ _ x).
      2: { apply Hparse; [lia|reflexivity]. }
      change (skip_ws ((","%char :: ?a) ++ ?b)) with (","%char :: (a ++ b)).
      cbv iota beta.
      rewrite Hparse' by lia. reflexivity.
Qed.

Lemma json_data_reads_back (v : value) : reads_back rt v.
Proof.
  induction v as [| |b|n|z|s|t|l IH|ps IH] using value_ind; intros Hdata;
    try discriminate Hdata.
  - exists (txt "null"). split_and!; [done|by exists "n"%char, (txt "ull")|simpl; lia|].
    intros [|fuel] rest Hfuel _; [simpl in Hfuel; lia|reflexivity].
  - exists (txt (if b then "true" else "false")). split_and!; [done| | |].
    + destruct b; [by exists "t"%char, (txt "rue")|by exists "f"%char, (txt "alse")].
    + destruct b; simpl; lia.
    + intros [|fuel] rest Hfuel _; [simpl in Hfuel; lia|]. by destruct b.
  - change (safe_number n = true) in Hdata.
    destruct (number_text_start n Hdata) as (c & s & Hz & Hc).
    exists (number_text n). split_and!; [by destruct n| | |].
    + exists c, s. auto using number_start_value_start.
    + rewrite Hz. simpl. lia.
    + intros [|fuel] rest Hfuel Hend; [simpl in Hfuel; lia|].
      rewrite Hz. simpl app. rewrite parse_value_number by done.
      change (c :: s ++ rest) with ((c :: s) ++ rest). rewrite <- Hz.
      by rewrite parse_number_text.
  - exists (QuoteJSONString s). split_and!; [done|by eexists _, _|simpl; lia|].
    intros [|fuel] rest Hfuel _; [simpl in Hfuel; lia|].
    unfold QuoteJSONString. simpl app at 1.
    rewrite <- app_assoc. rewrite parse_value_string.
    change ([dquote] ++ rest) with (dquote :: rest).
    by rewrite parse_string_chars_quote.
  - simpl in Hdata.
    destruct (elements_read_back l IH Hdata) as (parts & Hparts & Hnil & Hcons).
    exists ("["%char :: join_comma parts ++ ["]"%char]). split_and!.
    + simpl. rewrite Hparts. reflexivity.
    + by eexists _, _.
    + destruct l as [|x l]; [simpl; lia|].
      destruct Hcons as (_ & Hlen & _); [done|].
      change (need (VArr (x :: l))) with (S (elements_need (x :: l))).
      simpl length. rewrite length_app. simpl length. lia.
    + intros fuel rest Hfuel _. destruct fuel as [|fuel]; [simpl in Hfuel; lia|].
      destruct l as [|x l].
      * rewrite (Hnil eq_refl). reflexivity.
      * destruct Hcons as ((c & s & Hj & Hc) & _ & Hparse); [done|].
        change (need (VArr (x :: l))) with (S (elements_need (x :: l))) in Hfuel.
        specialize (Hparse fuel rest ltac:(lia)).
        simpl app. rewrite <- app_assoc. simpl app.
        rewrite Hj in *. simpl app in *. rewrite parse_value_array by done.
        by rewrite Hparse.
  - simpl in Hdata. apply andb_true_iff in Hdata as [Hdata Hall].
    apply andb_true_iff in Hdata as [Hdistinct Horder].
    destruct (members_read_back ps IH Hall) as (parts & Hparts & Hnil & Hcons).
    exists ("{"%char :: join_comma parts ++ ["}"%char]). split_and!.
    + simpl. rewrite Hparts. reflexivity.
    + by eexists _, _.
    + destruct ps as [|p ps]; [simpl; lia|].
      destruct Hcons as (_ & Hlen & _); [done|].
      change (need (VObj (p :: ps))) with (S (members_need (p :: ps))).
      simpl length. rewrite length_app. simpl length. lia.
    + intros fuel rest Hfuel _. destruct fuel as [|fuel]; [simpl in Hfuel; lia|].
      destruct ps as [|p ps].
      * rewrite (Hnil eq_refl). reflexivity.
      * destruct Hcons as ((s & Hj) & _ & Hparse); [done|].
        change (need (VObj (p :: ps))) with (S (members_need (p :: ps))) in Hfuel.
        specialize (Hparse fuel rest [] ltac:(lia)).
        simpl app. rewrite <- app_assoc. simpl app.
        rewrite Hj in *. simpl app in *. rewrite parse_value_object.
        rewrite Hparse. f_equal. f_equal. f_equal.
        by apply (define_members_in_order (p :: ps) []).
Qed.

End ReadBack.

(** ** The fuel of the parser *)
Lemma parse_value_step (fuel : nat) (s : text) :
  parse_value (S fuel) s = value_step (parse_elements fuel) (parse_members fuel) s.
Proof. reflexivity. Qed.

Lemma value_step_mono elements elements' members members' (s : text) r :
  (forall s r, elements s = Some r -> elements' s = Some r) ->
  (forall s acc r, members s acc = Some r -> members' s acc = Some r) ->
  value_step elements members s = Some r ->
  value_step elements' members' s = Some r.
Proof.
  intros He Hm. unfold value_step.
  repeat case_match; try done; subst; intros; simplify_eq.
  all: repeat match goal with
              | H : _ = Some _ |- _ => apply He in H
              | H : _ = Some _ |- _ => apply Hm in H
              end; congruence.
Qed.

Lemma parse_elements_step (fuel : nat) (s : text) :
  parse_elements (S fuel) s
  = elements_step (parse_value fuel) (parse_elements fuel) s.
Proof. reflexivity. Qed.

Lemma parse_members_step (fuel : nat) (s : text) (acc : list (string * value)) :
  parse_members (S fuel) s acc
  = members_step (parse_value fuel) (parse_members fuel) s acc.
Proof. reflexivity. Qed.

Lemma elements_step_mono parse parse' elements elements' (s : text) r :
  (forall s r, parse s = Some r -> parse' s = Some r) ->
  (forall s r, elements s = Some r -> elements' s = Some r) ->
  elements_step parse elements s = Some r ->
  elements_step parse' elements' s = Some r.
Proof.
  intros Hp He. unfold elements_step.
  destruct (parse s) as [[v rest]|] eqn:Hv; [|done].
  rewrite (Hp _ _ Hv).
  repeat case_match; try done; subst; intros; simplify_eq.
  all: repeat match goal with
              | H : _ = Some _ |- _ => apply He in H
              end; congruence.
Qed.

Lemma members_step_mono parse parse' members members' (s : text) acc r :
  (forall s r, parse s = Some r -> parse' s = Some r) ->
  (forall s acc r, members s acc = Some r -> members' s acc = Some r) ->
  members_step parse members s acc = Some r ->
  members_step parse' members' s acc = Some r.
Proof.
  intros Hp Hm. unfold members_step.
  destruct (skip_ws s) as [|c s1]; [done|].
  destruct (Ascii.eqb c dquote); [|done].
  destruct (parse_string_chars s1) as [[k s2]|]; [|done].
  destruct (skip_ws s2) as [|c2 s3]; [done|].
  destruct (parse s3) as [[v s4]|] eqn:Hv.
  - rewrite (Hp _ _ Hv). simpl.
    repeat case_match; try done; subst; intros; simplify_eq.
    all: by apply Hm.
  - repeat case_match; try done.
Qed.

(** More fuel never changes a result. *)
Lemma parse_fuel_step (fuel : nat) :
  (forall s r, parse_value fuel s = Some r -> parse_value (S fuel) s = Some r)
  /\ (forall s r, parse_elements fuel s = Some r -> parse_elements (S fuel) s = Some r)
  /\ (forall s acc r, parse_members fuel s acc = Some r ->
                      parse_members (S fuel) s acc = Some r).
Proof.
  induction fuel as [|fuel (IHv & IHe & IHm)]; [by split_and!|].
  split_and!.
  - intros s r. rewrite !parse_value_step. by apply value_step_mono.
  - intros s r. rewrite !parse_elements_step. by apply elements_step_mono.
  - intros s acc r. rewrite !parse_members_step. by apply members_step_mono.
Qed.

Lemma parse_value_fuel_le (fuel fuel' : nat) (s : text) r :
  (fuel <= fuel')%nat -> parse_value fuel s = Some r -> parse_value fuel' s = Some r.
Proof.
  induction 1 as [|fuel' _ IH]; [done|]. intros H.
  by apply (parse_fuel_step fuel'), IH.
Qed.

Lemma parse_elements_fuel_le (fuel fuel' : nat) (s : text) r :
  (fuel <= fuel')%nat ->
  parse_elements fuel s = Some r -> parse_elements fuel' s = Some r.
Proof.
  induction 1 as [|fuel' _ IH]; [done|]. intros H.
  by apply (parse_fuel_step fuel'), IH.
Qed.

Lemma parse_members_fuel_le (fuel fuel' : nat) (s : text) acc r :
  (fuel <= fuel')%nat ->
  parse_members fuel s acc = Some r -> parse_members fuel' s acc = Some r.
Proof.
  induction 1 as [|fuel' _ IH]; [done|]. intros H.
  by apply (parse_fuel_step fuel'), IH.
Qed.

(** *** What a successful parse consumes *)

Lemma skip_ws_length (s : text) : (length (skip_ws s) <= length s)%nat.
Proof. induction s as [|c s IH]; simpl; [lia|]. destruct (is_ws c); simpl; lia. Qed.

Lemma parse_string_chars_length (s : text) (str : string) (rest : text) :
  parse_string_chars s = Some (str, rest) -> (length rest < length s)%nat.
Proof.
  remember (length s) as n eqn:Hn. revert s str rest Hn.
  induction n as [n IH] using lt_wf_ind. intros s str rest -> H.
  destruct s as [|c s]; [discriminate|]. simpl in H.
  destruct (Ascii.eqb c dquote); [injection H as <- <-; simpl; lia|].
  destruct (Ascii.eqb c backslash).
  - destruct s as [|e s]; [discriminate|].
    destruct (Ascii.eqb e "u"%char).
    + destruct s as [|h1 [|h2 [|h3 [|h4 s]]]]; try discriminate.
      repeat case_match; try discriminate. simplify_eq.
      match goal with
      | H : parse_string_chars s = Some _ |- _ =>
          eapply (IH (length s)) in H; [|simpl; lia|reflexivity]
      end. simpl. lia.
    + repeat case_match; try discriminate. simplify_eq.
      match goal with
      | H : parse_string_chars s = Some _ |- _ =>
          eapply (IH (length s)) in H; [|simpl; lia|reflexivity]
      end. simpl. lia.
  - repeat case_match; try discriminate. simplify_eq.
    match goal with
    | H : parse_string_chars s = Some _ |- _ =>
        eapply (IH (length s)) in H; [|simpl; lia|reflexivity]
    end. simpl. lia.
Qed.

Lemma read_digits_length (s : text) (d : Decimal.uint) (rest : text) :
  read_digits s = (d, rest) ->
  (length rest <= length s)%nat
  /\ (d <> Decimal.Nil -> (length rest < length s)%nat).
Proof.
  revert d rest. induction s as [|c s IH]; simpl; intros d rest H.
  - by injection H as <- <-.
  - destruct (digit_of c) as [D|] eqn:HD.
    + destruct (read_digits s) as [d' rest'] eqn:Hs. injection H as <- <-.
      destruct (IH d' rest' eq_refl) as [Hle _]. split; intros; simpl; lia.
    + injection H as <- <-. split; [simpl; lia|done].
Qed.

Lemma read_run_length (s : text) (ds : list Z) (rest : text) :
  read_run s = (ds, rest) -> (length rest <= length s)%nat.
Proof.
  revert ds rest. induction s as [|c s IH]; simpl; intros ds rest H.
  - by injection H as <- <-.
  - destruct (digit_value c) as [d|].
    + destruct (read_run s) as [ds' rest'] eqn:Hs. injection H as <- <-.
      specialize (IH ds' rest' eq_refl). lia.
    + injection H as <- <-. simpl. lia.
Qed.

Lemma parse_fraction_length (s : text) (fs : list Z) (rest : text) :
  parse_fraction s = Some (fs, rest) -> (length rest <= length s)%nat.
Proof.
  unfold parse_fraction. intros H.
  repeat case_match; simplify_eq; simpl; try lia;
    match goal with
    | H : read_run _ = _ |- _ => apply read_run_length in H; lia
    end.
Qed.

Lemma read_exponent_length (negative : bool) (s : text) (e : Z) (rest : text) :
  read_exponent negative s = Some (e, rest) -> (length rest <= length s)%nat.
Proof.
  unfold read_exponent. destruct (read_run s) as [ds rest'] eqn:Hs.
  apply read_run_length in Hs. destruct ds; [done|]. by intros [= _ <-].
Qed.

Lemma parse_exponent_length (s : text) (e : Z) (rest : text) :
  parse_exponent s = Some (e, rest) -> (length rest <= length s)%nat.
Proof.
  unfold parse_exponent. intros H.
  repeat case_match; simplify_eq; simpl; try lia;
    match goal with
    | H : read_exponent _ _ = _ |- _ =>
        apply read_exponent_length in H; simpl in H; lia
    end.
Qed.

Lemma parse_unsigned_length (negative : bool) (s : text) (n : number)
    (rest : text) :
  parse_unsigned negative s = Some (n, rest) -> (length rest < length s)%nat.
Proof.
  unfold parse_unsigned. destruct (read_digits s) as [d s1] eqn:Hd.
  apply read_digits_length in Hd as [_ Hlt].
  destruct (Decimal.uint_beq d Decimal.Nil) eqn:Hnil; [done|].
  assert (d <> Decimal.Nil) as Hd.
  { intros ->. by rewrite uint_beq_refl in Hnil. }
  specialize (Hlt Hd).
  destruct (negb _); [done|].
  destruct (parse_fraction s1) as [[fs s2]|] eqn:Hf; [|done].
  destruct (parse_exponent s2) as [[e rest']|] eqn:He; [|done].
  apply parse_fraction_length in Hf. apply parse_exponent_length in He.
  intros [= _ <-]. lia.
Qed.

Lemma parse_number_length (s : text) (n : number) (rest : text) :
  parse_number s = Some (n, rest) -> (length rest < length s)%nat.
Proof.
  unfold parse_number.
  repeat case_match; try done; subst; intros H;
    apply parse_unsigned_length in H; simpl in *; lia.
Qed.

(** Turn what is known about consumed text into facts on lengths. *)
Ltac lengths :=
  repeat match goal with
         | H : skip_ws ?s = _ |- _ =>
             apply (f_equal length) in H; simpl in H;
             pose proof (skip_ws_length s)
         | H : parse_string_chars _ = Some _ |- _ =>
             apply parse_string_chars_length in H
         | H : parse_number _ = Some _ |- _ =>
             apply parse_number_length in H
         end;
  simpl length in *.

Lemma value_step_length elements members (s : text) (v : value) (rest : text) :
  (forall s vs rest, elements s = Some (vs, rest) -> (length rest < length s)%nat) ->
  (forall s acc v rest, members s acc = Some (v, rest) ->
                        (length rest < length s)%nat) ->
  value_step elements members s = Some (v, rest) ->
  (length rest < length s)%nat.
Proof.
  intros He Hm. unfold value_step.
  repeat case_match; try done; subst; intros; simplify_eq.
  all: repeat match goal with
              | H : _ = Some _ |- _ => apply He in H
              | H : _ = Some _ |- _ => apply Hm in H
              end.
  all: lengths; lia.
Qed.

Lemma elements_step_length parse elements (s : text) vs (rest : text) :
  (forall s v rest, parse s = Some (v, rest) -> (length rest < length s)%nat) ->
  (forall s vs rest, elements s = Some (vs, rest) -> (length rest < length s)%nat) ->
  elements_step parse elements s = Some (vs, rest) ->
  (length rest < length s)%nat.
Proof.
  intros Hp He. unfold elements_step.
  destruct (parse s) as [[v rest0]|] eqn:Hv; [|done]. apply Hp in Hv.
  repeat case_match; try done; subst; intros; simplify_eq.
  all: repeat match goal with
              | H : _ = Some _ |- _ => apply He in H
              end.
  all: lengths; lia.
Qed.

Lemma members_step_length parse members (s : text) acc v (rest : text) :
  (forall s v rest, parse s = Some (v, rest) -> (length rest < length s)%nat) ->
  (forall s acc v rest, members s acc = Some (v, rest) ->
                        (length rest < length s)%nat) ->
  members_step parse members s acc = Some (v, rest) ->
  (length rest < length s)%nat.
Proof.
  intros Hp Hm. unfold members_step.
  destruct (skip_ws s) as [|c s1] eqn:Hs; [done|].
  destruct (Ascii.eqb c dquote); [|done].
  destruct (parse_string_chars s1) as [[k s2]|] eqn:Hk; [|done].
  destruct (skip_ws s2) as [|c2 s3] eqn:Hs2; [done|].
  destruct (parse s3) as [[v' s4]|] eqn:Hv.
  - apply Hp in Hv. simpl.
    repeat case_match; try done; subst; intros; simplify_eq.
    all: repeat match goal with
                | H : _ = Some _ |- _ => apply Hm in H
                end.
    all: lengths; lia.
  - repeat case_match; try done.
Qed.

Lemma parse_length (fuel : nat) :
  (forall s v rest, parse_value fuel s = Some (v, rest) ->
                    (length rest < length s)%nat)
  /\ (forall s vs rest, parse_elements fuel s = Some (vs, rest) ->
                        (length rest < length s)%nat)
  /\ (forall s acc v rest, parse_members fuel s acc = Some (v, rest) ->
                           (length rest < length s)%nat).
Proof.
  induction fuel as [|fuel (IHv & IHe & IHm)]; [by split_and!|].
  split_and!.
  - intros s v rest. rewrite parse_value_step. by apply value_step_length.
  - intros s vs rest. rewrite parse_elements_step. by apply elements_step_length.
  - intros s acc v rest. rewrite parse_members_step. by apply members_step_length.
Qed.

(** *** The fuel of [JSON_parse] is enough *)

Lemma value_step_enough elements elements' members members' (s : text) r :
  (forall s' r, (length s' < length s)%nat ->
                elements s' = Some r -> elements' s' = Some r) ->
  (forall s' acc r, (length s' < length s)%nat ->
                    members s' acc = Some r -> members' s' acc = Some r) ->
  value_step elements members s = Some r ->
  value_step elements' members' s = Some r.
Proof.
  intros He Hm. unfold value_step.
  repeat case_match; try done; subst; intros; simplify_eq.
  all: lengths.
  all: repeat match goal with
              | H : _ = Some _ |- _ => apply He in H; [|lia]
              | H : _ = Some _ |- _ => apply Hm in H; [|lia]
              end; congruence.
Qed.

Lemma elements_step_enough parse parse' elements elements' (s : text) r :
  (forall v rest, parse s = Some (v, rest) -> (length rest < length s)%nat) ->
  (forall r, parse s = Some r -> parse' s = Some r) ->
  (forall s' r, (length s' < length s)%nat ->
                elements s' = Some r -> elements' s' = Some r) ->
  elements_step parse elements s = Some r ->
  elements_step parse' elements' s = Some r.
Proof.
  intros Hlen Hp He. unfold elements_step.
  destruct (parse s) as [[v rest]|] eqn:Hv; [|done].
  rewrite (Hp _ eq_refl). pose proof (Hlen _ _ eq_refl) as Hv'.
  repeat case_match; try done; subst; intros; simplify_eq.
  all: lengths.
  all: repeat match goal with
              | H : _ = Some _ |- _ => apply He in H; [|lia]
              end; congruence.
Qed.

Lemma members_step_enough parse parse' members members' (s : text) acc r :
  (forall s v rest, parse s = Some (v, rest) -> (length rest < length s)%nat) ->
  (forall s' r, (length s' < length s)%nat ->
                parse s' = Some r -> parse' s' = Some r) ->
  (forall s' acc r, (length s' < length s)%nat ->
                    members s' acc = Some r -> members' s' acc = Some r) ->
  members_step parse members s acc = Some r ->
  members_step parse' members' s acc = Some r.
Proof.
  intros Hlen Hp Hm. unfold members_step.
  destruct (skip_ws s) as [|c s1] eqn:Hs; [done|].
  destruct (Ascii.eqb c dquote); [|done].
  destruct (parse_string_chars s1) as [[k s2]|] eqn:Hk; [|done].
  destruct (skip_ws s2) as [|c2 s3] eqn:Hs2; [done|].
  destruct (parse s3) as [[v s4]|] eqn:Hv.
  - pose proof (Hlen _ _ _ Hv) as Hv'. lengths.
    rewrite (Hp s3 (v, s4)) by (done || lia). simpl.
    repeat case_match; try done; subst; intros; simplify_eq.
    all: lengths.
    all: apply Hm; [lia|done].
  - repeat case_match; try done.
Qed.

Lemma parse_fuel_enough (fuel : nat) :
  (forall s r, parse_value fuel s = Some r ->
               parse_value (2 * length s) s = Some r)
  /\ (forall s r, parse_elements fuel s = Some r ->
                  parse_elements (2 * length s + 1) s = Some r)
  /\ (forall s acc r, parse_members fuel s acc = Some r ->
                      parse_members (2 * length s + 1) s acc = Some r).
Proof.
  induction fuel as [|fuel (IHv & IHe & IHm)]; [by split_and!|].
  split_and!.
  - intros s [v rest] H. pose proof (proj1 (parse_length _) _ _ _ H) as Hlen.
    destruct (length s) as [|n] eqn:Hn; [lia|].
    replace (2 * S n)%nat with (S (2 * n + 1)) by lia.
    rewrite parse_value_step in H |- *.
    revert H. apply value_step_enough.
    + intros s' r Hs' H. apply IHe in H.
      revert H. apply parse_elements_fuel_le. lia.
    + intros s' acc r Hs' H. apply IHm in H.
      revert H. apply parse_members_fuel_le. lia.
  - intros s r H. replace (2 * length s + 1)%nat with (S (2 * length s)) by lia.
    rewrite parse_elements_step in H |- *.
    revert H. apply elements_step_enough.
    + apply parse_length.
    + apply IHv.
    + intros s' r' Hs' H. apply IHe in H.
      revert H. apply parse_elements_fuel_le. lia.
  - intros s acc r H. replace (2 * length s + 1)%nat with (S (2 * length s)) by lia.
    rewrite parse_members_step in H |- *.
    revert H. apply members_step_enough.
    + apply parse_length.
    + intros s' r' Hs' H. apply IHv in H.
      revert H. apply parse_value_fuel_le. lia.
    + intros s' acc' r' Hs' H. apply IHm in H.
      revert H. apply parse_members_fuel_le. lia.
Qed.

(** Whatever [parse_value] reads with some fuel, [JSON_parse] reads with
    its own: it does not fail for want of fuel. *)
Lemma JSON_parse_complete (s : string) (fuel : nat) (v : value) (rest : text) :
  parse_value fuel (list_ascii_of_string s) = Some (v, rest) ->
  skip_ws rest = [] ->
  JSON_parse s = Normal v.
Proof.
  intros H Hrest. unfold JSON_parse.
  apply (proj1 (parse_fuel_enough fuel)) in H.
  apply (parse_value_fuel_le _ (S (2 * length (list_ascii_of_string s)))) in H; [|lia].
  by rewrite H, Hrest.
Qed.

(** ** The expiry computation *)

Lemma rounded_seconds_div (ms : Z) : rounded_seconds ms ((ms + 500) / 1000).
Proof.
  unfold rounded_seconds.
  pose proof (Z.div_mod (ms + 500) 1000 ltac:(lia)).
  pose proof (Z.mod_pos_bound (ms + 500) 1000 ltac:(lia)). lia.
Qed.

Lemma TimeClip_time_value (n : number) : time_value (TimeClip n).
Proof.
  destruct n as [z|m p|]; unfold TimeClip; [| |done].
  - by destruct (Z.leb_spec (Z.abs z) 8640000000000000).
  - assert (0 < 10 ^ Z.pos p) as Hscale by (apply Z.pow_pos_nonneg; lia).
    destruct (Z.leb_spec (Z.abs m) (8640000000000000 * 10 ^ Z.pos p)) as [H|H];
      unfold time_value; [|done].
    rewrite <- Z.quot_abs by lia. rewrite (Z.abs_eq (10 ^ Z.pos p)) by lia.
    rewrite Z.quot_div_nonneg by lia.
    apply Z.lt_succ_r. apply Z.div_lt_upper_bound; lia.
Qed.

Lemma TimeClip_range (n : number) (z : Z) :
  TimeClip n = Fin z -> Z.abs z <= 8640000000000000.
Proof. intros H. pose proof (TimeClip_time_value n) as Ht. by rewrite H in Ht. Qed.

Lemma TimeClip_of_time_value (n : number) : time_value n -> TimeClip n = n.
Proof.
  destruct n as [z|m p|]; simpl; [|done..].
  by intros ->%Z.leb_le.
Qed.

Lemma TimeClip_idempotent (n : number) : TimeClip (TimeClip n) = TimeClip n.
Proof. apply TimeClip_of_time_value, TimeClip_time_value. Qed.

Lemma new_Date_time_value (rt : Runtime) (v : value) (n : number) :
  new_Date rt v = Normal n -> time_value n.
Proof.
  destruct v as [| |b|m|z|s|t|l|ps]; simpl; try discriminate;
    try (intros [= <-]; first [apply TimeClip_time_value | simpl; lia]).
  - intros [= <-]. destruct b; simpl; lia.
  - destruct (Date_of_object rt (VArr l)); simpl; [|discriminate].
    intros [= <-]. apply TimeClip_time_value.
  - destruct (Date_of_object rt (VObj ps)); simpl; [|discriminate].
    intros [= <-]. apply TimeClip_time_value.
Qed.

(** The time value [whole_seconds] rounds is a clipped one. *)
Lemma whole_seconds_clipped (rt : Runtime) (v : value) (n : number) :
  whole_seconds rt v = Normal n ->
  exists t, n = Math_round_div_1000 (TimeClip t).
Proof.
  unfold whole_seconds.
  destruct v as [| |b|m|z|s|t|l|ps]; simpl; try discriminate.
  - intros [= <-]. by exists NaN.
  - intros [= <-]. by exists (Fin 0).
  - intros [= <-]. exists (Fin (if b then 1 else 0)). by destruct b.
  - intros [= <-]. by exists m.
  - intros [= <-]. by exists (Date_parse rt s).
  - intros [= <-]. by exists t.
  - destruct (Date_of_object rt (VArr l)); simpl; [|discriminate].
    intros [= <-]; eauto.
  - destruct (Date_of_object rt (VObj ps)); simpl; [|discriminate].
    intros [= <-]; eauto.
Qed.

Lemma whole_seconds_range (rt : Runtime) (v : value) (e : Z) :
  whole_seconds rt v = Normal (Fin e) -> - 2 ^ 63 <= e < 2 ^ 63.
Proof.
  intros H. apply whole_seconds_clipped in H as [t Ht].
  pose proof (TimeClip_time_value t) as Hms.
  destruct (TimeClip t) as [ms|m p|]; [|done|discriminate].
  simpl in Hms. simpl in Ht. injection Ht as ->.
  pose proof (rounded_seconds_div ms) as Hr. unfold rounded_seconds in Hr.
  lia.
Qed.

Lemma getExpires_range (rt : Runtime) (now : Z) (sess : value) (expiration e : Z) :
  getExpires rt now sess expiration = Normal (Fin e) -> as_bigint (Fin e) = Some e.
Proof.
  unfold getExpires. destruct (expiry_hint sess) as [hint|]; simpl; [|discriminate].
  intros H. apply whole_seconds_range in H. unfold as_bigint.
  destruct (Z.leb_spec (- 2 ^ 63) e); [|lia].
  destruct (Z.ltb_spec e (2 ^ 63)); [done|lia].
Qed.

(** Reading a property of an object through [member]. *)
Lemma member_object (ps : list (string * value)) (k : string) :
  member (VObj ps) k = Normal (default VUndefined (lookup_property k ps)).
Proof. reflexivity. Qed.

Lemma member_truthy (v : value) (k : string) :
  truthy v = true ->
  member v k = Normal (default VUndefined (present_field v k)).
Proof. by destruct v. Qed.

Lemma truthy_field_member (v : value) (k : string) :
  truthy v = true ->
  exists x, member v k = Normal x /\
    truthy_field v k = (if truthy x then Some x else None).
Proof.
  intros Hv. rewrite (member_truthy _ _ Hv). unfold truthy_field.
  destruct (present_field v k) as [x|]; simpl; eauto.
Qed.

(** The hint the source picks is the truthy source of the amended
    reading. *)
Lemma getExpires_truthy_source (rt : Runtime) (now : Z)
    (ps : list (string * value)) (expiration : Z) :
  getExpires rt now (VObj ps) expiration =
  whole_seconds rt (truthy_expiry_source now (VObj ps) expiration).
Proof.
  unfold getExpires, expiry_hint, truthy_expiry_source.
  rewrite member_object. unfold truthy_field at 1. simpl present_field.
  destruct (lookup_property "cookie" ps) as [cookie|]; simpl; [|done].
  destruct (truthy cookie) eqn:Hc; simpl; [|done].
  destruct (truthy_field_member cookie "expires" Hc) as (e & -> & ->). simpl.
  destruct (truthy e) eqn:He; simpl; [by rewrite He|].
  destruct (truthy_field_member cookie "_expires" Hc) as (e' & -> & ->). simpl.
  destruct (truthy e') eqn:He'; simpl; [by rewrite He'|done].
Qed.

(** ** Text and strings *)

Lemma JSON_roundtrip (rt : Runtime) (v : value) :
  json_data v = true ->
  exists text, JSON_stringify rt v = Normal (Some text) /\ JSON_parse text = Normal v.
Proof.
  intros Hdata.
  destruct (json_data_reads_back rt v Hdata) as (t & Ht & _ & Hlen & Hparse).
  exists (string_of_list_ascii t). split.
  - unfold JSON_stringify. rewrite Ht. reflexivity.
  - unfold JSON_parse. rewrite list_ascii_of_string_of_list_ascii.
    specialize (Hparse (S (2 * length t)) [] ltac:(lia) eq_refl).
    rewrite app_nil_r in Hparse. rewrite Hparse. reflexivity.
Qed.

(** ** The methods on a live connection *)

#[local] Arguments as_bigint : simpl never.

Section Live.
Context (rt : Runtime).

Lemma get_live (store : Db2Store.t) (sid : string) (t : gmap string Row) :
  connected (Db2Store.client store) = true ->
  table (Db2Store.client store) = Some t ->
  Db2Store.get store sid =
  (match t !! sid with
   | Some r =>
       match Db2Store.parse_data (DataRow (row_data r)) with
       | Normal result => Called None result
       | Throw _ =>
           Called (Some (GenericError
             ("Failed to parse data for session: " +:+ sid))) VUndefined
       end
   | None => Called None VNull
   end,
   after_query store (Some t) [SelectData sid]).
Proof.
  destruct store as [opts [conn tbl log] ev]. simpl. intros -> ->.
  unfold Db2Store.get, query, after_query. simpl.
  destruct (t !! sid) as [r|]; [|done].
  unfold Db2Store.parse_data. destruct (row_data r) as [s|].
  - by destruct (JSON_parse s).
  - by destruct (JSON_parse "null").
Qed.

Lemma touch_live (now : Z) (store : Db2Store.t) (sid : string) (sess : value)
    (t : gmap string Row) (e : Z) :
  connected (Db2Store.client store) = true ->
  table (Db2Store.client store) = Some t ->
  getExpires rt now sess (expiration (Db2Store.options store)) = Normal (Fin e) ->
  Db2Store.touch rt now store sid sess =
  (Called None VUndefined,
   after_query store
     (Some (match t !! sid with
            | Some r => <[sid := {| row_expires := e; row_data := row_data r |}]> t
            | None => t
            end))
     [UpdateExpires (Fin e) sid]).
Proof.
  destruct store as [opts [conn tbl log] ev]. simpl. intros -> -> He.
  unfold Db2Store.touch, query, after_query. simpl. rewrite He. simpl.
  rewrite (getExpires_range _ _ _ _ _ He).
  by destruct (t !! sid).
Qed.

Lemma set_live (now : Z) (store : Db2Store.t) (sid : string) (sess : value)
    (t : gmap string Row) (e : Z) (text : string) :
  connected (Db2Store.client store) = true ->
  table (Db2Store.client store) = Some t ->
  getExpires rt now sess (expiration (Db2Store.options store)) = Normal (Fin e) ->
  JSON_stringify rt sess = Normal (Some text) ->
  Z.of_nat (String.length sid) <= 255 ->
  Z.of_nat (String.length text) <= 8100 ->
  Db2Store.set rt now store sid sess =
  (Called None VUndefined,
   after_query store
     (Some (<[sid := {| row_expires := e; row_data := Some text |}]> t))
     [SelectCount sid;
      if t !! sid is Some _ then UpdateSession (Fin e) (Some text) sid
      else InsertSession sid (Fin e) (Some text)]).
Proof.
  destruct store as [opts [conn tbl log] ev]. simpl. intros -> -> He Ht Hsid Htext.
  unfold Db2Store.set, query, after_query. simpl. rewrite He, Ht. simpl.
  apply Z.leb_le in Hsid, Htext.
  destruct (t !! sid) as [r|] eqn:Hr; simpl.
  - rewrite (getExpires_range _ _ _ _ _ He). simpl. rewrite Htext. simpl.
    rewrite Hr. unfold Db2Store.with_client. simpl.
    by rewrite <- app_assoc.
  - rewrite (getExpires_range _ _ _ _ _ He). simpl. rewrite Hsid, Htext. simpl.
    rewrite Hr. unfold Db2Store.with_client. simpl.
    by rewrite <- app_assoc.
Qed.

Lemma length_live (store : Db2Store.t) (t : gmap string Row) :
  connected (Db2Store.client store) = true ->
  table (Db2Store.client store) = Some t ->
  Db2Store.length store =
  (Called None (VNum (Fin (Z.of_nat (size t)))),
   after_query store (Some t) [CountAll]).
Proof.
  destruct store as [opts [conn tbl log] ev]. simpl. by intros -> ->.
Qed.

End Live.

(** ** The claims *)

(** *** C10 *)

(** C10.  Called without [new], the constructor throws a [TypeError]
    whatever options and connection it is given; no connection string has
    been passed to the driver and no event emitted. *)
Theorem construct_without_new (rt : Runtime) (given : option UserOptions)
    (connection : option Connection) :
  Db2Store.construct rt AsFunction given connection =
  (Throw (TypeError "Cannot call Db2Store constructor as a function"),
   {| Db2Store.opened := []; Db2Store.construction_events := [] |}).
Proof. reflexivity. Qed.

(** *** C8 *)

(** C8.  Construction with [new] throws the assertion error when the
    resulting handle is absent or not connected.  A method called on a
    store whose connection is not connected issues no query and leaves the
    store as it is, and throws the assertion error if it got as far as its
    query; on a connected store it then issues the query. *)
Theorem connection_is_asserted (rt : Runtime) :
  (forall given connection,
      match resulting_handle rt given connection with
      | Some c => connected c = false
      | None => True
      end ->
      fst (Db2Store.construct rt WithNew given connection) = Throw AssertionError)
  /\ (forall op store,
         connected (Db2Store.client store) = false ->
         snd (perform rt op store) = store
         /\ (reaches_query rt op store = true ->
             fst (perform rt op store) = Thrown AssertionError))
  /\ (forall op store,
         connected (Db2Store.client store) = true ->
         reaches_query rt op store = true ->
         exists q qs,
           issued (Db2Store.client (snd (perform rt op store)))
           = issued (Db2Store.client store) ++ q :: qs).
Proof.
  split_and!.
  - intros given [c|]; unfold resulting_handle, Db2Store.construct; simpl.
    + by intros ->.
    + destruct (ibmdb_openSync rt _) as [c|e]; simpl; [by intros ->|done].
  - intros op store Hc.
    destruct op; simpl; unfold Db2Store.get, Db2Store.set, Db2Store.destroy,
      Db2Store.touch, Db2Store.length, Db2Store.clear,
      Db2Store.createDatabaseTable, Db2Store.dropDatabaseTable;
      rewrite ?Hc; simpl; try done.
    + destruct (getExpires rt now sess _); simpl; [|done].
      by destruct (JSON_stringify rt sess).
    + by destruct (getExpires rt now sess _).
    + by destruct (truthy (allowDrop _)).
  - intros op [opts [conn tbl log] ev] Hc Hq. simpl in Hc. subst conn.
    destruct op; simpl in *; unfold Db2Store.get, Db2Store.set, Db2Store.destroy,
      Db2Store.touch, Db2Store.length, Db2Store.clear,
      Db2Store.createDatabaseTable, Db2Store.dropDatabaseTable, query; simpl.
    + destruct (execute (SelectData sid) tbl) as [[rows|err] tbl'];
        repeat case_match; simpl; eauto.
    + destruct (getExpires rt now sess _); simpl in *; [|done].
      destruct (JSON_stringify rt sess) as [jsess|]; simpl in *; [|done].
      destruct (execute (SelectCount sid) tbl) as [[rows|err] tbl']; simpl; [|eauto].
      match goal with
      | |- context [execute ?q tbl'] =>
          destruct (execute q tbl') as [[rows'|err'] tbl'']
      end; simpl; rewrite <- app_assoc; eauto.
    + destruct (execute (DeleteSession sid) tbl) as [[rows|err] tbl']; simpl; eauto.
    + destruct (getExpires rt now sess _) as [expires|]; simpl in *; [|done].
      destruct (execute (UpdateExpires expires sid) tbl) as [[rows|err] tbl'];
        simpl; eauto.
    + destruct (execute CountAll tbl) as [[rows|err] tbl']; simpl; eauto.
    + destruct (execute DeleteAll tbl) as [[rows|err] tbl']; simpl; eauto.
    + destruct (execute CreateTable tbl) as [[rows|err] tbl']; simpl; eauto.
    + rewrite Hq. simpl.
      destruct (execute DropTable tbl) as [[rows|err] tbl']; simpl; eauto.
Qed.

Lemma connection_is_asserted_witness :
  fst (Db2Store.construct plain_runtime WithNew None (Some closed_connection))
  = Throw AssertionError
  /\ perform plain_runtime (OpGet "s1") closed_store
     = (Thrown AssertionError, closed_store)
  /\ exists q qs,
       issued (Db2Store.client (snd (perform plain_runtime (OpGet "s1") fresh_store)))
       = issued (Db2Store.client fresh_store) ++ q :: qs.
Proof.
  destruct (connection_is_asserted plain_runtime) as (Hnew & Hclosed & Hlive).
  split; [exact (Hnew None (Some closed_connection) eq_refl)|].
  split.
  - destruct (Hclosed (OpGet "s1") closed_store eq_refl) as [Hstore Hthrow].
    rewrite (surjective_pairing (perform plain_runtime (OpGet "s1") closed_store)).
    rewrite Hstore, (Hthrow eq_refl). reflexivity.
  - exact (Hlive (OpGet "s1") fresh_store eq_refl eq_refl).
Defined.

(** *** C3 *)

(** C3.  On a connected store whose table exists, [get] calls back with
    [null] and no error when the table has no row for the id, and with the
    error "Failed to parse data for session: <id>" (and no result) when
    the row's [data] does not parse; the two outcomes differ. *)
Theorem get_missing_or_unparsable (store : Db2Store.t) (sid : string)
    (t : gmap string Row) :
  connected (Db2Store.client store) = true ->
  table (Db2Store.client store) = Some t ->
  (t !! sid = None -> fst (Db2Store.get store sid) = Called None VNull)
  /\ (forall r e,
         t !! sid = Some r ->
         Db2Store.parse_data (DataRow (row_data r)) = Throw e ->
         fst (Db2Store.get store sid)
         = Called (Some (GenericError
             ("Failed to parse data for session: " +:+ sid))) VUndefined
         /\ fst (Db2Store.get store sid) <> Called None VNull).
Proof.
  intros Hc Ht. rewrite (get_live store sid t Hc Ht). simpl. split.
  - by intros ->.
  - intros r e -> ->. by split.
Qed.

Lemma get_missing_or_unparsable_witness :
  fst (Db2Store.get corrupt_store "s2") = Called None VNull
  /\ fst (Db2Store.get corrupt_store "s1")
     = Called (Some (GenericError "Failed to parse data for session: s1")) VUndefined.
Proof.
  destruct (get_missing_or_unparsable corrupt_store "s2"
              {[ "s1" := {| row_expires := 0; row_data := Some "{oops" |} ]}
              eq_refl eq_refl) as [Hmissing _].
  destruct (get_missing_or_unparsable corrupt_store "s1"
              {[ "s1" := {| row_expires := 0; row_data := Some "{oops" |} ]}
              eq_refl eq_refl) as [_ Hcorrupt].
  split.
  - apply Hmissing. vm_compute. reflexivity.
  - refine (proj1 (Hcorrupt {| row_expires := 0; row_data := Some "{oops" |}
                     (SyntaxError "Unexpected token in JSON") _ _)).
    + vm_compute. reflexivity.
    + vm_compute. reflexivity.
Defined.

(** *** C4 *)

(** C4, as stated, fails: [set] computes the expiry before it serializes
    the session (line 193, ahead of the [try] block).  For a session whose
    expiry hint is a BigInt, [JSON.stringify] would throw, but [new Date]
    throws first: [set] throws that error and calls no continuation. *)
Lemma bigint_expiry_is_not_reported :
  JSON_stringify plain_runtime bigint_expiry_session
  = Throw (TypeError "Do not know how to serialize a BigInt")
  /\ Db2Store.set plain_runtime 1000000 fresh_store "s1" bigint_expiry_session
     = (Thrown (TypeError "Cannot convert a BigInt value to a number"),
        fresh_store)
  /\ forall err result,
       fst (Db2Store.set plain_runtime 1000000 fresh_store "s1"
              bigint_expiry_session)
       <> Called err result.
Proof. split_and!; [reflexivity..|]. intros err result. discriminate. Qed.

(** C4, amended.  For a session whose serialization fails: when the
    expiry of the session computes, [set] hands the serialization error
    to the continuation; when the expiry computation throws, [set] throws
    that error instead.  Either way the store is exactly as before: no
    statement was issued and the table is unchanged. *)
Theorem set_reports_serialization_failure (rt : Runtime) (now : Z)
    (store : Db2Store.t) (sid : string) (sess : value) (err : Error) :
  JSON_stringify rt sess = Throw err ->
  (forall expires,
      getExpires rt now sess (expiration (Db2Store.options store)) = Normal expires ->
      Db2Store.set rt now store sid sess = (Called (Some err) VUndefined, store))
  /\ (forall e,
        getExpires rt now sess (expiration (Db2Store.options store)) = Throw e ->
        Db2Store.set rt now store sid sess = (Thrown e, store)).
Proof.
  intros Hs. unfold Db2Store.set. split.
  - intros expires He. by rewrite He, Hs.
  - intros e He. by rewrite He.
Qed.

Lemma set_reports_serialization_failure_witness :
  Db2Store.set plain_runtime 1000000 fresh_store "s1" unserializable_session
  = (Called (Some (TypeError "Do not know how to serialize a BigInt")) VUndefined,
     fresh_store).
Proof.
  refine (proj1 (set_reports_serialization_failure plain_runtime 1000000
                   fresh_store "s1" unserializable_session _ _) (Fin 3592) _).
  - vm_compute. reflexivity.
  - vm_compute. reflexivity.
Defined.

(** *** C7 *)

(** C7.  While [allowDrop] is falsy, which it is when the configuration
    does not set it, [dropDatabaseTable] calls back with the configuration
    error and leaves the store untouched, issuing nothing.  With
    [allowDrop] true and a live connection it issues [DROP TABLE]; the
    table is gone afterwards, and the call succeeds if there was one. *)
Theorem drop_requires_allowDrop (store : Db2Store.t) :
  (forall given, given_allowDrop given = None ->
                 truthy (allowDrop (extend defaultOptions given)) = false)
  /\ (truthy (allowDrop (Db2Store.options store)) = false ->
      Db2Store.dropDatabaseTable store
      = (Called (Some Db2Store.drop_not_allowed) VUndefined, store))
  /\ (allowDrop (Db2Store.options store) = VBool true ->
      connected (Db2Store.client store) = true ->
      issued (Db2Store.client (snd (Db2Store.dropDatabaseTable store)))
      = issued (Db2Store.client store) ++ [DropTable]
      /\ table (Db2Store.client (snd (Db2Store.dropDatabaseTable store))) = None
      /\ (is_Some (table (Db2Store.client store)) ->
          fst (Db2Store.dropDatabaseTable store) = Called None VUndefined)).
Proof.
  split_and!.
  - intros given H. unfold extend. simpl. by rewrite H.
  - intros H. unfold Db2Store.dropDatabaseTable. by rewrite H.
  - destruct store as [opts [conn tbl log] ev]. simpl. intros Ha ->.
    unfold Db2Store.dropDatabaseTable, query. simpl. rewrite Ha. simpl.
    destruct tbl as [t|]; simpl; split_and!; try done.
    all: try by intros [? [=]].
Qed.

Lemma drop_requires_allowDrop_witness :
  Db2Store.dropDatabaseTable fresh_store
  = (Called (Some Db2Store.drop_not_allowed) VUndefined, fresh_store)
  /\ issued (Db2Store.client (snd (Db2Store.dropDatabaseTable droppable_store)))
     = [DropTable]
  /\ table (Db2Store.client (snd (Db2Store.dropDatabaseTable droppable_store))) = None.
Proof.
  destruct (drop_requires_allowDrop fresh_store) as (_ & Hrefused & _).
  destruct (drop_requires_allowDrop droppable_store) as (_ & _ & Hallowed).
  split; [exact (Hrefused eq_refl)|].
  destruct (Hallowed eq_refl eq_refl) as (Hissued & Htable & _).
  split; [exact Hissued | exact Htable].
Defined.

(** *** C6 *)

(** C6.  On a connected store whose table exists, touching an id that has
    no row, with a session whose expiry computes to an integer, calls back
    without error; the table is the same afterwards, the id still has no
    row, and [length] reports the same count as before. *)
Theorem touch_missing_id (rt : Runtime) (now : Z) (store : Db2Store.t)
    (sid : string) (sess : value) (t : gmap string Row) (e : Z) :
  connected (Db2Store.client store) = true ->
  table (Db2Store.client store) = Some t ->
  t !! sid = None ->
  getExpires rt now sess (expiration (Db2Store.options store)) = Normal (Fin e) ->
  fst (Db2Store.touch rt now store sid sess) = Called None VUndefined
  /\ table (Db2Store.client (snd (Db2Store.touch rt now store sid sess))) = Some t
  /\ stored_row (snd (Db2Store.touch rt now store sid sess)) sid = None
  /\ fst (Db2Store.length (snd (Db2Store.touch rt now store sid sess)))
     = fst (Db2Store.length store).
Proof.
  intros Hc Ht Hsid He.
  rewrite (touch_live rt now store sid sess t e Hc Ht He), Hsid. simpl.
  split_and!; try done.
  by rewrite (length_live store t Hc Ht).
Qed.

Lemma touch_missing_id_witness :
  fst (Db2Store.touch plain_runtime 1000000 fresh_store "s1" sample_session)
  = Called None VUndefined
  /\ table (Db2Store.client
              (snd (Db2Store.touch plain_runtime 1000000 fresh_store "s1" sample_session)))
     = Some ∅
  /\ fst (Db2Store.length
            (snd (Db2Store.touch plain_runtime 1000000 fresh_store "s1" sample_session)))
     = fst (Db2Store.length fresh_store).
Proof.
  destruct (touch_missing_id plain_runtime 1000000 fresh_store "s1" sample_session
              ∅ 3592 eq_refl eq_refl) as (Hok & Htable & _ & Hlength).
  - vm_compute. reflexivity.
  - vm_compute. reflexivity.
  - split; [exact Hok|]. split; [exact Htable | exact Hlength].
Defined.

(** A [set] within the column sizes stores the text of the session, and
    [get] reads the session back from it. *)
Lemma set_then_get_stored (rt : Runtime) (now : Z) (store : Db2Store.t)
    (sid : string) (sess : value) (t : gmap string Row) (e : Z) (text : string) :
  connected (Db2Store.client store) = true ->
  table (Db2Store.client store) = Some t ->
  json_data sess = true ->
  getExpires rt now sess (expiration (Db2Store.options store)) = Normal (Fin e) ->
  JSON_stringify rt sess = Normal (Some text) ->
  Z.of_nat (String.length sid) <= 255 ->
  Z.of_nat (String.length text) <= 8100 ->
  stored_row (snd (Db2Store.set rt now store sid sess)) sid
  = Some {| row_expires := e; row_data := Some text |}
  /\ fst (Db2Store.get (snd (Db2Store.set rt now store sid sess)) sid)
     = Called None sess.
Proof.
  intros Hc Ht Hdata He Htext Hsid Hlen.
  rewrite (set_live rt now store sid sess t e text Hc Ht He Htext Hsid Hlen).
  simpl snd. split.
  - unfold stored_row. simpl. apply lookup_insert_eq.
  - erewrite get_live by reflexivity.
    rewrite lookup_insert_eq. simpl.
    destruct (JSON_roundtrip rt sess Hdata) as (text' & Htext' & Hparse).
    rewrite Htext in Htext'. injection Htext' as <-. by rewrite Hparse.
Qed.

(** *** C1 *)




(** *** C5 *)

(** Touching an id that has a row replaces the row's [expires] and keeps
    its [data]; the other rows stay. *)
Lemma touch_existing_row (rt : Runtime) (now : Z) (store : Db2Store.t)
    (sid : string) (sess : value) (t : gmap string Row) (r : Row) (e : Z) :
  connected (Db2Store.client store) = true ->
  table (Db2Store.client store) = Some t ->
  t !! sid = Some r ->
  getExpires rt now sess (expiration (Db2Store.options store)) = Normal (Fin e) ->
  Db2Store.touch rt now store sid sess =
  (Called None VUndefined,
   after_query store
     (Some (<[sid := {| row_expires := e; row_data := row_data r |}]> t))
     [UpdateExpires (Fin e) sid]).
Proof.
  intros Hc Ht Hr He. by rewrite (touch_live rt now store sid sess t e Hc Ht He), Hr.
Qed.

(** C5.  On a connected store whose table exists, touching an id that has
    a row, with a session [s2] whose expiry computes to the integer [e2],
    succeeds; afterwards the row holds [e2] as [expires] and the same
    [data] as before, every other row is as it was, and [get] calls back
    with what it did before the [touch].  In particular, when the row was
    written by a [set] of a session [s] (JSON data within the column
    sizes), the [data] is still the text of [s] and [get] still calls
    back with [s]. *)
Theorem touch_updates_only_expires (rt : Runtime) (now' : Z)
    (store : Db2Store.t) (sid : string) (s2 : value) (t : gmap string Row)
    (r : Row) (e2 : Z) :
  connected (Db2Store.client store) = true ->
  table (Db2Store.client store) = Some t ->
  t !! sid = Some r ->
  getExpires rt now' s2 (expiration (Db2Store.options store)) = Normal (Fin e2) ->
  let store' := snd (Db2Store.touch rt now' store sid s2) in
  fst (Db2Store.touch rt now' store sid s2) = Called None VUndefined
  /\ stored_row store' sid = Some {| row_expires := e2; row_data := row_data r |}
  /\ (forall sid', sid' <> sid -> stored_row store' sid' = stored_row store sid')
  /\ fst (Db2Store.get store' sid) = fst (Db2Store.get store sid)
  /\ (forall now store0 s t0 e text,
         connected (Db2Store.client store0) = true ->
         table (Db2Store.client store0) = Some t0 ->
         json_data s = true ->
         getExpires rt now s (expiration (Db2Store.options store0)) = Normal (Fin e) ->
         JSON_stringify rt s = Normal (Some text) ->
         Z.of_nat (String.length sid) <= 255 ->
         Z.of_nat (String.length text) <= 8100 ->
         store = snd (Db2Store.set rt now store0 sid s) ->
         r = {| row_expires := e; row_data := Some text |}
         /\ fst (Db2Store.get store' sid) = Called None s).
Proof.
  intros Hc Ht Hr He2 store'. subst store'.
  rewrite (touch_existing_row rt now' store sid s2 t r e2 Hc Ht Hr He2).
  simpl fst. simpl snd.
  assert (fst (Db2Store.get
                 (after_query store
                    (Some (<[sid := {| row_expires := e2; row_data := row_data r |}]> t))
                    [UpdateExpires (Fin e2) sid]) sid)
          = fst (Db2Store.get store sid)) as Hget.
  { erewrite get_live by reflexivity. rewrite (get_live store sid t Hc Ht).
    by rewrite lookup_insert_eq, Hr. }
  split_and!.
  - done.
  - unfold stored_row. simpl. apply lookup_insert_eq.
  - intros sid' Hne. unfold stored_row. simpl. rewrite Ht.
    by apply lookup_insert_ne.
  - exact Hget.
  - intros now store0 s t0 e text Hc0 Ht0 Hdata He Htext Hsid Hlen Hstore.
    rewrite Hget.
    pose proof (set_then_get_stored rt now store0 sid s t0 e text
                  Hc0 Ht0 Hdata He Htext Hsid Hlen) as [Hrow Hs].
    rewrite <- Hstore in Hrow, Hs. split; [|exact Hs].
    unfold stored_row in Hrow. rewrite Ht, Hr in Hrow. by injection Hrow.
Qed.

Lemma touch_updates_only_expires_witness :
  let store1 :=
    snd (Db2Store.set plain_runtime 1000000 fresh_store "s1" sample_session) in
  let s2 := VObj [("cookie", VObj [("expires", VDate (Fin 7200000))])] in
  let store2 := snd (Db2Store.touch plain_runtime 2000000 store1 "s1" s2) in
  option_map row_expires (stored_row store1 "s1") = Some 3592
  /\ option_map row_expires (stored_row store2 "s1") = Some 7200
  /\ option_map row_data (stored_row store2 "s1")
     = option_map row_data (stored_row store1 "s1")
  /\ fst (Db2Store.get store2 "s1") = Called None sample_session.
Proof.
  intros store1 s2 store2.
  assert (exists r, stored_row store1 "s1" = Some r /\ row_expires r = 3592)
    as (r & Hr & Hexpires).
  { eexists. split; vm_compute; reflexivity. }
  assert (exists t, table (Db2Store.client store1) = Some t /\ t !! "s1" = Some r)
    as (t & Ht & Hrow).
  { unfold stored_row in Hr. destruct (table (Db2Store.client store1)) as [t|];
      [|discriminate]. by exists t. }
  edestruct (touch_updates_only_expires plain_runtime 2000000 store1 "s1" s2 t r 7200)
    as (_ & Hrow2 & _ & _ & Hset).
  - reflexivity.
  - exact Ht.
  - exact Hrow.
  - vm_compute. reflexivity.
  - fold store2 in Hrow2, Hset.
    edestruct (Hset 1000000 fresh_store sample_session ∅ 3592) as [_ Hget].
    + reflexivity.
    + reflexivity.
    + vm_compute. reflexivity.
    + vm_compute. reflexivity.
    + vm_compute. reflexivity.
    + vm_compute. discriminate.
    + vm_compute. discriminate.
    + reflexivity.
    + rewrite Hr, Hrow2. simpl. rewrite Hexpires. split_and!; [done..|exact Hget].
Defined.

(** *** C2 *)

(** C2, as stated, fails: for a session whose [cookie.expires] is present
    with the value 0, the specification's reading takes that field and
    stores 0, while the source skips it and stores now plus the
    expiration, in seconds. *)
Lemma present_zero_is_not_the_source :
  present_field (VObj [("expires", VNum (Fin 0))]) "expires" = Some (VNum (Fin 0))
  /\ whole_seconds plain_runtime
       (spec_expiry_source 1000000 epoch_number_session 2592000) = Normal (Fin 0)
  /\ getExpires plain_runtime 1000000 epoch_number_session 2592000 = Normal (Fin 3592)
  /\ getExpires plain_runtime 1000000 epoch_number_session 2592000
     <> whole_seconds plain_runtime
          (spec_expiry_source 1000000 epoch_number_session 2592000).
Proof. split_and!; [reflexivity..|discriminate]. Qed.

#[local] Arguments execute : simpl never.

(** The time value of [new Date(v)] covers a Date [v] as well. *)
Lemma whole_seconds_new_Date (rt : Runtime) (v : value) :
  whole_seconds rt v = (t ← new_Date rt v; Normal (Math_round_div_1000 t)).
Proof. by destruct v. Qed.

(** What [whole_seconds] computes is the rounding of the timestamp of its
    argument. *)
Lemma whole_seconds_timestamp (rt : Runtime) (source : value) :
  whole_seconds rt source
  = (t ← timestamp rt source; Normal (Math_round_div_1000 t)).
Proof. by destruct source. Qed.

(** C2, amended.  For every session object the expiry is computed from
    [cookie.expires] if that is present and truthy, else from
    [cookie._expires] if that is present and truthy, else from now plus
    the configured expiration.  Whichever source is used, the result is
    its timestamp in milliseconds divided by 1000 and rounded to the
    nearest integer: a source with a timestamp gives that rounding, a
    source without one ([NaN]) gives [NaN], and the result is an integer
    only as such a rounding; so it is for now plus the expiration when no
    hint is truthy, and for a Date [T] it is exactly that rounding of [T].
    [touch] and [set] pass the result to the database as [expires]. *)
Theorem expiry_source_and_rounding (rt : Runtime) (now : Z)
    (ps : list (string * value)) (store : Db2Store.t) (sid : string) :
  let expiration := expiration (Db2Store.options store) in
  let source := truthy_expiry_source now (VObj ps) expiration in
  getExpires rt now (VObj ps) expiration = whole_seconds rt source
  /\ (forall v ms,
        timestamp rt v = Normal (Fin ms) ->
        whole_seconds rt v = Normal (Fin ((ms + 500) / 1000))
        /\ rounded_seconds ms ((ms + 500) / 1000))
  /\ (forall v, timestamp rt v = Normal NaN -> whole_seconds rt v = Normal NaN)
  /\ (forall v e, timestamp rt v = Throw e -> whole_seconds rt v = Throw e)
  /\ (expiry_hint (VObj ps) = Normal VUndefined ->
      Z.abs (now + expiration) <= 8640000000000000 ->
      getExpires rt now (VObj ps) expiration
      = Normal (Fin ((now + expiration + 500) / 1000))
      /\ rounded_seconds (now + expiration) ((now + expiration + 500) / 1000))
  /\ (forall r, whole_seconds rt source = Normal (Fin r) ->
                exists ms, new_Date rt source = Normal (Fin ms)
                           /\ timestamp rt source = Normal (Fin ms)
                           /\ rounded_seconds ms r)
  /\ (forall T, Z.abs T <= 8640000000000000 ->
                whole_seconds rt (VDate (Fin T)) = Normal (Fin ((T + 500) / 1000))
                /\ rounded_seconds T ((T + 500) / 1000))
  /\ (forall expires,
         whole_seconds rt source = Normal expires ->
         connected (Db2Store.client store) = true ->
         issued (Db2Store.client (snd (Db2Store.touch rt now store sid (VObj ps))))
         = issued (Db2Store.client store) ++ [UpdateExpires expires sid]
         /\ forall jsess t,
              JSON_stringify rt (VObj ps) = Normal jsess ->
              table (Db2Store.client store) = Some t ->
              issued (Db2Store.client (snd (Db2Store.set rt now store sid (VObj ps))))
              = issued (Db2Store.client store)
                ++ [SelectCount sid;
                    if t !! sid is Some _ then UpdateSession expires jsess sid
                    else InsertSession sid expires jsess]).
Proof.
  intros expiration source.
  pose proof (getExpires_truthy_source rt now ps expiration) as Hsource.
  fold source in Hsource. split_and!.
  - exact Hsource.
  - intros v ms Hv. rewrite whole_seconds_timestamp, Hv.
    split; [done|apply rounded_seconds_div].
  - intros v Hv. by rewrite whole_seconds_timestamp, Hv.
  - intros v e Hv. by rewrite whole_seconds_timestamp, Hv.
  - intros Hhint Hrange. split; [|apply rounded_seconds_div].
    unfold getExpires. rewrite Hhint. simpl. unfold whole_seconds. simpl.
    by apply Z.leb_le in Hrange as ->.
  - intros r. rewrite whole_seconds_new_Date.
    destruct (new_Date rt source) as [n|err] eqn:Hn; simpl; [|discriminate].
    assert (timestamp rt source = Normal n) as Ht.
    { pose proof (whole_seconds_timestamp rt source) as Hw.
      rewrite whole_seconds_new_Date, Hn in Hw.
      destruct source; simpl in *; try done; congruence. }
    apply new_Date_time_value in Hn.
    destruct n as [ms|m p|]; simpl; [|done|discriminate].
    intros [= <-]. exists ms. split_and!; [done|done|apply rounded_seconds_div].
  - intros T HT. split; [|apply rounded_seconds_div].
    unfold whole_seconds, getTime. simpl.
    by apply Z.leb_le in HT as ->.
  - intros expires Hexp Hc. rewrite <- Hsource in Hexp. subst expiration.
    destruct store as [opts [conn tbl log] ev]. simpl in *. subst conn.
    split.
    + unfold Db2Store.touch, query. simpl. rewrite Hexp. simpl.
      by destruct (execute (UpdateExpires expires sid) tbl) as [[rows|err] tbl'].
    + intros jsess t Hj ->.
      unfold Db2Store.set, query. simpl. rewrite Hexp, Hj. simpl.
      change (execute (SelectCount sid) (Some t))
        with (Rows [CountRow (if t !! sid is Some _ then 1 else 0)], Some t).
      destruct (t !! sid) as [r|]; simpl.
      * destruct (execute (UpdateSession expires jsess sid) (Some t))
          as [[rows|err] tbl']; simpl; by rewrite <- app_assoc.
      * destruct (execute (InsertSession sid expires jsess) (Some t))
          as [[rows|err] tbl']; simpl; by rewrite <- app_assoc.
Qed.

Lemma expiry_source_and_rounding_witness :
  getExpires plain_runtime 1000000
    (VObj [("cookie", VObj [("expires", VDate (Fin 1500))])]) 2592000
  = Normal (Fin 2)
  /\ rounded_seconds 1500 2
  /\ issued (Db2Store.client
       (snd (Db2Store.touch plain_runtime 1000000 fresh_store "s1"
               (VObj [("cookie", VObj [("expires", VDate (Fin 1500))])]))))
     = [UpdateExpires (Fin 2) "s1"].
Proof.
  destruct (expiry_source_and_rounding plain_runtime 1000000
              [("cookie", VObj [("expires", VDate (Fin 1500))])] fresh_store "s1")
    as (Hsource & _ & _ & _ & _ & _ & Hdate & Hstored).
  destruct (Hdate 1500 ltac:(vm_compute; discriminate)) as [Hseconds Hrounded].
  split; [exact (eq_trans Hsource Hseconds)|].
  split; [exact Hrounded|].
  exact (proj1 (Hstored (Fin 2) Hseconds eq_refl)).
Defined.

(** *** C9 *)

(** C9, as stated, fails: with [cookie.expires] present but falsy, the
    source goes on to [cookie._expires] before it falls back to now plus
    the expiration; and the Date object of the epoch is truthy, so the
    epoch is stored. *)
Lemma falsy_expires_can_store_epoch :
  present_field (VObj [("expires", VNum (Fin 0)); ("_expires", VDate (Fin 0))])
    "expires" = Some (VNum (Fin 0))
  /\ truthy (VNum (Fin 0)) = false
  /\ getExpires plain_runtime 1000000 epoch_date_session 2592000 = Normal (Fin 0)
  /\ getExpires plain_runtime 1000000 epoch_date_session 2592000
     <> whole_seconds plain_runtime (VNum (Fin (1000000 + 2592000))).
Proof. split_and!; [reflexivity..|discriminate]. Qed.

(** C9, amended.  For every session whose [cookie.expires] is present but
    falsy, the expiry computation skips that value: it uses
    [cookie._expires] if that is truthy and otherwise now plus the
    configured expiration.  A truthy value of the epoch, such as the Date
    object of time 0, is used like any other and gives 0. *)
Theorem falsy_expires_is_skipped (rt : Runtime) (now : Z)
    (ps : list (string * value)) (expiration : Z) (cookie e : value) :
  lookup_property "cookie" ps = Some cookie ->
  truthy cookie = true ->
  present_field cookie "expires" = Some e ->
  truthy e = false ->
  getExpires rt now (VObj ps) expiration
  = whole_seconds rt
      (if truthy_field cookie "_expires" is Some e' then e'
       else VNum (Fin (now + expiration)))
  /\ whole_seconds rt (VDate (Fin 0)) = Normal (Fin 0).
Proof.
  intros Hcookie Hc He Hfalsy. split; [|reflexivity].
  rewrite getExpires_truthy_source. unfold truthy_expiry_source.
  unfold truthy_field at 1. simpl present_field. rewrite Hcookie, Hc.
  unfold truthy_field at 1. by rewrite He, Hfalsy.
Qed.

Lemma falsy_expires_is_skipped_witness :
  getExpires plain_runtime 1000000 epoch_number_session 2592000
  = Normal (Fin 3592)
  /\ getExpires plain_runtime 1000000 epoch_date_session 2592000
     = Normal (Fin 0).
Proof.
  split.
  - exact (proj1 (falsy_expires_is_skipped plain_runtime 1000000
                    [("cookie", VObj [("expires", VNum (Fin 0))])] 2592000
                    (VObj [("expires", VNum (Fin 0))]) (VNum (Fin 0))
                    eq_refl eq_refl eq_refl eq_refl)).
  - exact (proj1 (falsy_expires_is_skipped plain_runtime 1000000
                    [("cookie", VObj [("expires", VNum (Fin 0));
                                      ("_expires", VDate (Fin 0))])] 2592000
                    (VObj [("expires", VNum (Fin 0)); ("_expires", VDate (Fin 0))])
                    (VNum (Fin 0))
                    eq_refl eq_refl eq_refl eq_refl)).
Defined.

(** ** More on the methods on a live connection *)

Section LiveMore.
Context (rt : Runtime).

Lemma destroy_live (store : Db2Store.t) (sid : string) (t : gmap string Row) :
  connected (Db2Store.client store) = true ->
  table (Db2Store.client store) = Some t ->
  Db2Store.destroy store sid =
  (Called None VUndefined, after_query store (Some (delete sid t)) [DeleteSession sid]).
Proof.
  destruct store as [opts [conn tbl log] ev]. simpl. by intros -> ->.
Qed.

Lemma clear_live (store : Db2Store.t) (t : gmap string Row) :
  connected (Db2Store.client store) = true ->
  table (Db2Store.client store) = Some t ->
  Db2Store.clear store =
  (Called None VUndefined, after_query store (Some ∅) [DeleteAll]).
Proof.
  destruct store as [opts [conn tbl log] ev]. simpl. by intros -> ->.
Qed.

Lemma get_live_row (store : Db2Store.t) (sid : string) (t : gmap string Row) :
  connected (Db2Store.client store) = true ->
  table (Db2Store.client store) = Some t ->
  t !! sid = None ->
  fst (Db2Store.get store sid) = Called None VNull.
Proof.
  intros Hc Ht Hrow. rewrite (get_live store sid t Hc Ht). by rewrite Hrow.
Qed.

(** What [get] reports depends on the row of the id alone. *)
Lemma get_live_same_row (s1 s2 : Db2Store.t) (sid : string)
    (t1 t2 : gmap string Row) :
  connected (Db2Store.client s1) = true ->
  table (Db2Store.client s1) = Some t1 ->
  connected (Db2Store.client s2) = true ->
  table (Db2Store.client s2) = Some t2 ->
  t1 !! sid = t2 !! sid ->
  fst (Db2Store.get s1 sid) = fst (Db2Store.get s2 sid).
Proof.
  intros Hc1 Ht1 Hc2 Ht2 Hrow.
  rewrite (get_live s1 sid t1 Hc1 Ht1), (get_live s2 sid t2 Hc2 Ht2).
  by rewrite Hrow.
Qed.

End LiveMore.

Lemma size_lookup_pos (t : gmap string Row) (sid : string) (r : Row) :
  t !! sid = Some r -> (0 < size t)%nat.
Proof.
  intros Hr. destruct (size t) eqn:Hs; [|lia].
  apply map_size_empty_inv in Hs. subst t. by rewrite lookup_empty in Hr.
Qed.

(** ** Further properties of the store *)

(** *** X1 *)

(** X1.  On a connected store whose table exists, [destroy] succeeds
    whether or not the id has a row; afterwards [get] finds no session
    under the id, every other id reads as before, and [length] is one
    less if the id had a row and the same otherwise. *)
Theorem destroy_removes_session (store : Db2Store.t) (sid : string)
    (t : gmap string Row) :
  connected (Db2Store.client store) = true ->
  table (Db2Store.client store) = Some t ->
  fst (Db2Store.destroy store sid) = Called None VUndefined
  /\ table (Db2Store.client (snd (Db2Store.destroy store sid))) = Some (delete sid t)
  /\ fst (Db2Store.get (snd (Db2Store.destroy store sid)) sid) = Called None VNull
  /\ (forall sid', sid' <> sid ->
        fst (Db2Store.get (snd (Db2Store.destroy store sid)) sid')
        = fst (Db2Store.get store sid'))
  /\ fst (Db2Store.length (snd (Db2Store.destroy store sid)))
     = Called None (VNum (Fin (Z.of_nat (size t)
                               - (if t !! sid is Some _ then 1 else 0)))).
Proof.
  intros Hc Ht. rewrite (destroy_live store sid t Hc Ht). simpl fst. simpl snd.
  split_and!; [done|done| | |].
  - eapply get_live_row; [done..|]. apply lookup_delete_eq.
  - intros sid' Hne.
    eapply get_live_same_row; [done|done|exact Hc|exact Ht|].
    by apply lookup_delete_ne.
  - rewrite map_size_delete. destruct (t !! sid) as [r|] eqn:Hr; simpl.
    + apply size_lookup_pos in Hr. do 3 f_equal. lia.
    + do 3 f_equal. lia.
Qed.

Lemma destroy_removes_session_witness :
  fst (Db2Store.get (snd (Db2Store.destroy corrupt_store "s1")) "s1")
  = Called None VNull
  /\ fst (Db2Store.length (snd (Db2Store.destroy corrupt_store "s1")))
     = Called None (VNum (Fin 0)).
Proof.
  pose proof (destroy_removes_session corrupt_store "s1"
                {[ "s1" := {| row_expires := 0; row_data := Some "{oops" |} ]}
                eq_refl eq_refl) as (_ & _ & Hget & _ & Hlen).
  split; [exact Hget|]. rewrite Hlen. vm_compute. reflexivity.
Defined.

(** *** X2 *)

(** X2.  On a connected store whose table exists, [clear] succeeds and
    leaves an empty table: [length] reports 0 and [get] finds no session
    under any id. *)
Theorem clear_removes_all (store : Db2Store.t) (t : gmap string Row) :
  connected (Db2Store.client store) = true ->
  table (Db2Store.client store) = Some t ->
  fst (Db2Store.clear store) = Called None VUndefined
  /\ table (Db2Store.client (snd (Db2Store.clear store))) = Some ∅
  /\ fst (Db2Store.length (snd (Db2Store.clear store))) = Called None (VNum (Fin 0))
  /\ forall sid, fst (Db2Store.get (snd (Db2Store.clear store)) sid)
                 = Called None VNull.
Proof.
  intros Hc Ht. rewrite (clear_live store t Hc Ht). simpl fst. simpl snd.
  split_and!; [done..|].
  intros sid. by eapply get_live_row.
Qed.

Lemma clear_removes_all_witness :
  fst (Db2Store.length (snd (Db2Store.clear corrupt_store)))
  = Called None (VNum (Fin 0))
  /\ fst (Db2Store.get (snd (Db2Store.clear corrupt_store)) "s1")
     = Called None VNull.
Proof.
  pose proof (clear_removes_all corrupt_store
                {[ "s1" := {| row_expires := 0; row_data := Some "{oops" |} ]}
                eq_refl eq_refl) as (_ & _ & Hlen & Hget).
  split; [exact Hlen|exact (Hget "s1")].
Defined.

(** *** X3 *)

(** X3.  A [set] that succeeds stores one row under the id, with the
    computed expiry and the text of the session: it replaces the row the
    id had or adds one, and no other id is affected. *)
Theorem set_inserts_or_updates (rt : Runtime) (now : Z) (store : Db2Store.t)
    (sid : string) (sess : value) (t : gmap string Row) (e : Z) (text : string) :
  connected (Db2Store.client store) = true ->
  table (Db2Store.client store) = Some t ->
  getExpires rt now sess (expiration (Db2Store.options store)) = Normal (Fin e) ->
  JSON_stringify rt sess = Normal (Some text) ->
  Z.of_nat (String.length sid) <= 255 ->
  Z.of_nat (String.length text) <= 8100 ->
  stored_row (snd (Db2Store.set rt now store sid sess)) sid
  = Some {| row_expires := e; row_data := Some text |}
  /\ (forall sid', sid' <> sid ->
        stored_row (snd (Db2Store.set rt now store sid sess)) sid' = t !! sid'
        /\ fst (Db2Store.get (snd (Db2Store.set rt now store sid sess)) sid')
           = fst (Db2Store.get store sid'))
  /\ fst (Db2Store.length (snd (Db2Store.set rt now store sid sess)))
     = Called None (VNum (Fin (Z.of_nat (size t)
                               + (if t !! sid is Some _ then 0 else 1)))).
Proof.
  intros Hc Ht He Htext Hsid Hlen.
  rewrite (set_live rt now store sid sess t e text Hc Ht He Htext Hsid Hlen).
  simpl snd. split_and!.
  - unfold stored_row. simpl. apply lookup_insert_eq.
  - intros sid' Hne. split.
    + unfold stored_row. simpl. by apply lookup_insert_ne.
    + eapply get_live_same_row; [done|done|exact Hc|exact Ht|].
      by apply lookup_insert_ne.
  - simpl fst. rewrite map_size_insert.
    destruct (t !! sid) as [r|]; simpl; do 3 f_equal; lia.
Qed.

Lemma set_inserts_or_updates_witness :
  stored_row (snd (Db2Store.set plain_runtime 1000000 corrupt_store "s2"
                     sample_session)) "s1"
  = Some {| row_expires := 0; row_data := Some "{oops" |}
  /\ fst (Db2Store.length (snd (Db2Store.set plain_runtime 1000000 corrupt_store
                                  "s2" sample_session)))
     = Called None (VNum (Fin 2)).
Proof.
  assert (exists text,
            JSON_stringify plain_runtime sample_session = Normal (Some text)
            /\ Z.of_nat (String.length text) <= 8100) as (text & Htext & Hlen).
  { eexists. split; [vm_compute; reflexivity|vm_compute; discriminate]. }
  pose proof (set_inserts_or_updates plain_runtime 1000000 corrupt_store "s2"
                sample_session
                {[ "s1" := {| row_expires := 0; row_data := Some "{oops" |} ]}
                3592 text eq_refl eq_refl ltac:(vm_compute; reflexivity) Htext
                ltac:(vm_compute; discriminate) Hlen) as (_ & Hothers & Hcount).
  split.
  - rewrite (proj1 (Hothers "s1" ltac:(discriminate))). vm_compute. reflexivity.
  - rewrite Hcount. vm_compute. reflexivity.
Defined.

(** *** X4 *)

(** X4.  The last [set] wins: after two successful [set]s to the same id
    the table is what the second alone would have left, and [get]
    returns the second session. *)
Theorem set_overwrites (rt : Runtime) (now1 now2 : Z) (store : Db2Store.t)
    (sid : string) (s1 s2 : value) (t : gmap string Row) (e1 e2 : Z)
    (text1 text2 : string) :
  connected (Db2Store.client store) = true ->
  table (Db2Store.client store) = Some t ->
  getExpires rt now1 s1 (expiration (Db2Store.options store)) = Normal (Fin e1) ->
  JSON_stringify rt s1 = Normal (Some text1) ->
  Z.of_nat (String.length text1) <= 8100 ->
  json_data s2 = true ->
  getExpires rt now2 s2 (expiration (Db2Store.options store)) = Normal (Fin e2) ->
  JSON_stringify rt s2 = Normal (Some text2) ->
  Z.of_nat (String.length text2) <= 8100 ->
  Z.of_nat (String.length sid) <= 255 ->
  table (Db2Store.client
           (snd (Db2Store.set rt now2 (snd (Db2Store.set rt now1 store sid s1))
                   sid s2)))
  = table (Db2Store.client (snd (Db2Store.set rt now2 store sid s2)))
  /\ fst (Db2Store.get
            (snd (Db2Store.set rt now2 (snd (Db2Store.set rt now1 store sid s1))
                    sid s2)) sid)
     = Called None s2.
Proof.
  intros Hc Ht He1 Htext1 Hlen1 Hdata He2 Htext2 Hlen2 Hsid.
  rewrite (set_live rt now1 store sid s1 t e1 text1 Hc Ht He1 Htext1 Hsid Hlen1).
  simpl snd.
  rewrite (set_live rt now2 store sid s2 t e2 text2 Hc Ht He2 Htext2 Hsid Hlen2).
  erewrite (set_live rt now2 (after_query store _ _) sid s2 _ e2 text2);
    [|reflexivity|reflexivity|exact He2|exact Htext2|exact Hsid|exact Hlen2].
  simpl snd. split.
  - simpl. by rewrite insert_insert_eq.
  - erewrite get_live by reflexivity. rewrite lookup_insert_eq. simpl.
    destruct (JSON_roundtrip rt s2 Hdata) as (text' & Htext' & Hparse).
    rewrite Htext2 in Htext'. injection Htext' as <-. by rewrite Hparse.
Qed.

Lemma set_overwrites_witness :
  fst (Db2Store.get
         (snd (Db2Store.set plain_runtime 2000000
                 (snd (Db2Store.set plain_runtime 1000000 fresh_store "s1"
                         (VObj [("n", VNum (Fin 1))])))
                 "s1" sample_session)) "s1")
  = Called None sample_session.
Proof.
  assert (forall v, (exists text,
            JSON_stringify plain_runtime v = Normal (Some text)
            /\ (Z.of_nat (String.length text) <=? 8100) = true) ->
          exists text, JSON_stringify plain_runtime v = Normal (Some text)
            /\ Z.of_nat (String.length text) <= 8100) as Hle.
  { intros v (text & H1 & H2). exists text. split; [done|by apply Z.leb_le]. }
  destruct (Hle (VObj [("n", VNum (Fin 1))])) as (text1 & Htext1 & Hlen1).
  { eexists. split; vm_compute; reflexivity. }
  destruct (Hle sample_session) as (text2 & Htext2 & Hlen2).
  { eexists. split; vm_compute; reflexivity. }
  exact (proj2 (set_overwrites plain_runtime 1000000 2000000 fresh_store "s1"
                  (VObj [("n", VNum (Fin 1))]) sample_session ∅ 3592 4592
                  text1 text2 eq_refl eq_refl ltac:(vm_compute; reflexivity)
                  Htext1 Hlen1 ltac:(vm_compute; reflexivity)
                  ltac:(vm_compute; reflexivity) Htext2 Hlen2
                  ltac:(vm_compute; discriminate))).
Defined.

(** ** Methods on a store that is not connected *)

Lemma perform_not_connected (rt : Runtime) (op : Operation) (store : Db2Store.t) :
  connected (Db2Store.client store) = false ->
  snd (perform rt op store) = store
  /\ (reaches_query rt op store = true ->
      fst (perform rt op store) = Thrown AssertionError).
Proof.
  intros Hc.
  destruct op; simpl; unfold Db2Store.get, Db2Store.set, Db2Store.destroy,
    Db2Store.touch, Db2Store.length, Db2Store.clear,
    Db2Store.createDatabaseTable, Db2Store.dropDatabaseTable;
    rewrite ?Hc; simpl; try done.
  - destruct (getExpires rt now sess _); simpl; [|done].
    by destruct (JSON_stringify rt sess).
  - by destruct (getExpires rt now sess _).
  - by destruct (truthy (allowDrop _)).
Qed.

(** *** X5 *)



(** *** X6 *)

(** X6.  What a construction with [new] does to its environment.  With a
    supplied connection that is connected, the driver is not asked to
    open anything and no event is emitted.  Without one, the driver is
    asked once, with the connection string of the options; a connected
    handle makes the store emit [connect]; an error of the driver is
    emitted with [disconnect], and what the constructor throws is the
    assertion error, not the error of the driver. *)
Theorem construct_effects (rt : Runtime) (given : option UserOptions) :
  (forall c,
      connected c = true ->
      Db2Store.construct rt WithNew given (Some c)
      = (Normal {| Db2Store.options := extend defaultOptions (default no_options given);
                   Db2Store.client := c;
                   Db2Store.emitted := [] |},
         {| Db2Store.opened := []; Db2Store.construction_events := [] |}))
  /\ (forall c,
        ibmdb_openSync rt
          (connection_string (extend defaultOptions (default no_options given)))
        = Normal c ->
        connected c = true ->
        Db2Store.construct rt WithNew given None
        = (Normal {| Db2Store.options :=
                       extend defaultOptions (default no_options given);
                     Db2Store.client := c;
                     Db2Store.emitted := [Connect] |},
           {| Db2Store.opened :=
                [connection_string (extend defaultOptions (default no_options given))];
              Db2Store.construction_events := [Connect] |}))
  /\ (forall err,
        ibmdb_openSync rt
          (connection_string (extend defaultOptions (default no_options given)))
        = Throw err ->
        Db2Store.construct rt WithNew given None
        = (Throw AssertionError,
           {| Db2Store.opened :=
                [connection_string (extend defaultOptions (default no_options given))];
              Db2Store.construction_events := [Disconnect (Some err)] |})).
Proof.
  split_and!.
  - intros c Hc. unfold Db2Store.construct. by rewrite Hc.
  - intros c Hopen Hc. unfold Db2Store.construct. rewrite Hopen. by rewrite Hc.
  - intros err Hopen. unfold Db2Store.construct. by rewrite Hopen.
Qed.

Lemma construct_effects_witness :
  Db2Store.construct plain_runtime WithNew None None
  = (Throw AssertionError,
     {| Db2Store.opened := [connection_string defaultOptions];
        Db2Store.construction_events := [Disconnect (Some (DriverError "08001"))] |}).
Proof.
  destruct (construct_effects plain_runtime None) as (_ & _ & Hfail).
  exact (Hfail (DriverError "08001") eq_refl).
Defined.

(** *** X7 *)

(** X7.  The default expiration is [oneDay * 30] with [oneDay] in seconds,
    and [getExpires] adds it to a clock in milliseconds: a session without
    an expiry hint, stored under the default options, expires 2592
    seconds after now. *)
Theorem default_expiration_counts_milliseconds (rt : Runtime) (now : Z)
    (sess : value) :
  expiry_hint sess = Normal VUndefined ->
  Z.abs (now + 2592000) <= 8640000000000000 ->
  exists e,
    getExpires rt now sess (expiration (extend defaultOptions no_options))
    = Normal (Fin e)
    /\ rounded_seconds (now + 2592000) e.
Proof.
  intros Hhint Hrange. exists ((now + 2592000 + 500) / 1000).
  split; [|apply rounded_seconds_div].
  unfold getExpires. rewrite Hhint. simpl.
  change (oneDay * 30) with 2592000.
  unfold whole_seconds. simpl.
  by apply Z.leb_le in Hrange as ->.
Qed.

Lemma default_expiration_counts_milliseconds_witness :
  exists e,
    getExpires plain_runtime 1000000 sample_session
      (expiration (extend defaultOptions no_options)) = Normal (Fin e)
    /\ rounded_seconds (1000000 + 2592000) e.
Proof.
  apply (default_expiration_counts_milliseconds plain_runtime 1000000
           sample_session).
  - reflexivity.
  - vm_compute. discriminate.
Defined.

(** *** X8 *)

(** X8.  [set] and [touch] read [sess.cookie] before anything else: with
    a session that is [null] or [undefined] they throw a [TypeError],
    whatever the state of the store, call no continuation and issue no
    statement. *)
Theorem missing_session_throws (rt : Runtime) (now : Z) (store : Db2Store.t)
    (sid : string) (sess : value) :
  sess = VUndefined \/ sess = VNull ->
  exists message,
    Db2Store.set rt now store sid sess = (Thrown (TypeError message), store)
    /\ Db2Store.touch rt now store sid sess = (Thrown (TypeError message), store).
Proof. intros [-> | ->]; by eexists. Qed.

Lemma missing_session_throws_witness :
  exists message,
    Db2Store.set plain_runtime 1000000 closed_store "s1" VNull
    = (Thrown (TypeError message), closed_store)
    /\ Db2Store.touch plain_runtime 1000000 closed_store "s1" VNull
       = (Thrown (TypeError message), closed_store).
Proof.
  apply (missing_session_throws plain_runtime 1000000 closed_store "s1" VNull).
  right. reflexivity.
Defined.

(** *** X9 *)

(** X9.  Whatever the session holds, an expiry that [getExpires] returns
    is [NaN] or a whole number of seconds within the range of dates, at
    most 8.64e12 in magnitude, which the [BIGINT] column holds. *)
Theorem expiry_is_in_date_range (rt : Runtime) (now : Z) (sess : value)
    (expiration : Z) (n : number) :
  getExpires rt now sess expiration = Normal n ->
  n = NaN
  \/ exists e, n = Fin e /\ Z.abs e <= 8640000000000 /\ as_bigint n = Some e.
Proof.
  unfold getExpires. destruct (expiry_hint sess) as [hint|]; simpl; [|discriminate].
  intros H. apply whole_seconds_clipped in H as [t ->].
  pose proof (TimeClip_time_value t) as Hms.
  destruct (TimeClip t) as [ms|m p|]; simpl in *; [|done|by left].
  right. eexists. split; [reflexivity|].
  pose proof (rounded_seconds_div ms) as Hr. unfold rounded_seconds in Hr.
  assert (Z.abs ((ms + 500) / 1000) <= 8640000000000) as Habs by lia.
  split; [exact Habs|]. unfold as_bigint.
  destruct (Z.leb_spec (- 2 ^ 63) ((ms + 500) / 1000)); [|lia].
  destruct (Z.ltb_spec ((ms + 500) / 1000) (2 ^ 63)); [done|lia].
Qed.

Lemma expiry_is_in_date_range_witness :
  Fin 3592 = NaN
  \/ exists e, Fin 3592 = Fin e /\ Z.abs e <= 8640000000000
               /\ as_bigint (Fin 3592) = Some e.
Proof.
  apply (expiry_is_in_date_range plain_runtime 1000000 sample_session 2592000).
  vm_compute. reflexivity.
Defined.

(** ** One statement against the table *)

Lemma execute_failed (q : Statement) (db db' : option (gmap string Row))
    (err : Error) :
  execute q db = (Failed err, db') -> db' = db.
Proof.
  unfold execute. intros H.
  destruct db as [t|]; destruct q; repeat case_match; by simplify_eq.
Qed.

Lemma execute_read (q : Statement) (db : option (gmap string Row)) :
  match q with
  | SelectData _ | SelectCount _ | CountAll => True
  | _ => False
  end ->
  snd (execute q db) = db.
Proof. unfold execute. by destruct db, q. Qed.

(** The statements a method added to the log of the connection. *)
Ltac none_issued := exists []; split; [by rewrite app_nil_r|simpl; lia].
Ltac one_issued := eexists [_]; split; [reflexivity|simpl; lia].

(** *** X11 *)

(** X11.  No method that issues a query changes the options of the store,
    the events emitted on it or the state of its connection; a method
    passes at most two statements to the driver, and [get] and [length]
    leave the table as it is. *)
Theorem methods_keep_the_store (rt : Runtime) (op : Operation)
    (store : Db2Store.t) :
  Db2Store.options (snd (perform rt op store)) = Db2Store.options store
  /\ Db2Store.emitted (snd (perform rt op store)) = Db2Store.emitted store
  /\ connected (Db2Store.client (snd (perform rt op store)))
     = connected (Db2Store.client store)
  /\ (exists qs,
        issued (Db2Store.client (snd (perform rt op store)))
        = issued (Db2Store.client store) ++ qs /\ (length qs <= 2)%nat)
  /\ (read_only op = true ->
      table (Db2Store.client (snd (perform rt op store)))
      = table (Db2Store.client store)).
Proof.
  destruct (connected (Db2Store.client store)) eqn:Hc.
  2: { destruct (perform_not_connected rt op store Hc) as [-> _].
       split_and!; try done. none_issued. }
  destruct store as [opts [conn tbl log] ev]. simpl in Hc. subst conn.
  destruct op; simpl; unfold Db2Store.get, Db2Store.set, Db2Store.destroy,
    Db2Store.touch, Db2Store.length, Db2Store.clear,
    Db2Store.createDatabaseTable, Db2Store.dropDatabaseTable, query; simpl.
  - pose proof (execute_read (SelectData sid) tbl I) as Hread.
    destruct (execute (SelectData sid) tbl) as [[rows|err] tbl']; simpl in Hread;
      subst tbl'; repeat case_match; simpl; split_and!; try done; one_issued.
  - destruct (getExpires rt now sess _) as [expires|]; simpl.
    2: { split_and!; try done. none_issued. }
    destruct (JSON_stringify rt sess) as [jsess|]; simpl.
    2: { split_and!; try done. none_issued. }
    destruct (execute (SelectCount sid) tbl) as [[rows|err] tbl']; simpl.
    2: { split_and!; try done. one_issued. }
    match goal with
    | |- context [execute ?q tbl'] =>
        destruct (execute q tbl') as [[rows'|err'] tbl''] eqn:Hq
    end; simpl; (split_and!; try done); rewrite <- app_assoc;
      (eexists [_; _]; split; [reflexivity|simpl; lia]).
  - destruct (execute (DeleteSession sid) tbl) as [[rows|err] tbl']; simpl;
      split_and!; try done; one_issued.
  - destruct (getExpires rt now sess _) as [expires|]; simpl.
    2: { split_and!; try done. none_issued. }
    destruct (execute (UpdateExpires expires sid) tbl) as [[rows|err] tbl']; simpl;
      split_and!; try done; one_issued.
  - pose proof (execute_read CountAll tbl I) as Hread.
    destruct (execute CountAll tbl) as [[rows|err] tbl']; simpl in Hread;
      subst tbl'; simpl; split_and!; try done; one_issued.
  - destruct (execute DeleteAll tbl) as [[rows|err] tbl']; simpl;
      split_and!; try done; one_issued.
  - destruct (execute CreateTable tbl) as [[rows|err] tbl']; simpl;
      split_and!; try done; one_issued.
  - destruct (truthy (allowDrop opts)); simpl.
    2: { split_and!; try done. none_issued. }
    destruct (execute DropTable tbl) as [[rows|err] tbl']; simpl;
      split_and!; try done; one_issued.
Qed.

(** *** X12 *)

(** X12.  A method that fails, by throwing or by calling back with an
    error, leaves the table as it was: a [set] whose second statement is
    refused has stored nothing. *)
Theorem failed_method_changes_nothing (rt : Runtime) (op : Operation)
    (store : Db2Store.t) :
  failed (fst (perform rt op store)) = true ->
  table (Db2Store.client (snd (perform rt op store)))
  = table (Db2Store.client store).
Proof.
  destruct (connected (Db2Store.client store)) eqn:Hc.
  2: { by destruct (perform_not_connected rt op store Hc) as [-> _]. }
  destruct store as [opts [conn tbl log] ev]. simpl in Hc. subst conn.
  destruct op; simpl; unfold Db2Store.get, Db2Store.set, Db2Store.destroy,
    Db2Store.touch, Db2Store.length, Db2Store.clear,
    Db2Store.createDatabaseTable, Db2Store.dropDatabaseTable, query; simpl.
  - pose proof (execute_read (SelectData sid) tbl I) as Hread.
    destruct (execute (SelectData sid) tbl) as [[rows|err] tbl']; simpl in Hread;
      subst tbl'; by repeat case_match.
  - destruct (getExpires rt now sess _) as [expires|]; simpl; [|done].
    destruct (JSON_stringify rt sess) as [jsess|]; simpl; [|done].
    pose proof (execute_read (SelectCount sid) tbl I) as Hread.
    destruct (execute (SelectCount sid) tbl) as [[rows|err] tbl']; simpl in Hread;
      subst tbl'; simpl; [|done].
    match goal with
    | |- context [execute ?q tbl] =>
        destruct (execute q tbl) as [[rows'|err'] tbl''] eqn:Hq
    end; simpl; [done|].
    intros _. by apply execute_failed in Hq.
  - destruct (execute (DeleteSession sid) tbl) as [[rows|err] tbl'] eqn:Hq; simpl;
      [done|]. intros _. by apply execute_failed in Hq.
  - destruct (getExpires rt now sess _) as [expires|]; simpl; [|done].
    destruct (execute (UpdateExpires expires sid) tbl) as [[rows|err] tbl'] eqn:Hq;
      simpl; [done|]. intros _. by apply execute_failed in Hq.
  - pose proof (execute_read CountAll tbl I) as Hread.
    by destruct (execute CountAll tbl) as [[rows|err] tbl']; simpl in Hread;
      subst tbl'.
  - destruct (execute DeleteAll tbl) as [[rows|err] tbl'] eqn:Hq; simpl;
      [done|]. intros _. by apply execute_failed in Hq.
  - destruct (execute CreateTable tbl) as [[rows|err] tbl'] eqn:Hq; simpl;
      [done|]. intros _. by apply execute_failed in Hq.
  - destruct (truthy (allowDrop opts)); simpl; [|done].
    destruct (execute DropTable tbl) as [[rows|err] tbl'] eqn:Hq; simpl;
      [done|]. intros _. by apply execute_failed in Hq.
Qed.

Lemma failed_method_changes_nothing_witness :
  table (Db2Store.client
           (snd (perform plain_runtime (OpSet 1000000 "s1" large_session)
                   fresh_store)))
  = table (Db2Store.client fresh_store).
Proof.
  apply (failed_method_changes_nothing plain_runtime
           (OpSet 1000000 "s1" large_session) fresh_store).
  vm_compute. reflexivity.
Defined.

(** *** X13 *)

(** X13.  On a connected store, [createDatabaseTable] creates an empty
    table when there is none, and [length] then reports 0; when the table
    exists it calls back with the error of the driver and the rows stay
    as they were. *)
Theorem createDatabaseTable_creates_once (store : Db2Store.t) :
  connected (Db2Store.client store) = true ->
  (table (Db2Store.client store) = None ->
   fst (Db2Store.createDatabaseTable store) = Called None VUndefined
   /\ table (Db2Store.client (snd (Db2Store.createDatabaseTable store))) = Some ∅
   /\ fst (Db2Store.length (snd (Db2Store.createDatabaseTable store)))
      = Called None (VNum (Fin 0)))
  /\ (forall t,
        table (Db2Store.client store) = Some t ->
        fst (Db2Store.createDatabaseTable store)
        = Called (Some duplicate_table) VUndefined
        /\ table (Db2Store.client (snd (Db2Store.createDatabaseTable store)))
           = Some t).
Proof.
  destruct store as [opts [conn tbl log] ev]. simpl. intros ->. split.
  - by intros ->.
  - by intros t ->.
Qed.

Lemma createDatabaseTable_creates_once_witness :
  fst (Db2Store.createDatabaseTable corrupt_store)
  = Called (Some duplicate_table) VUndefined
  /\ stored_row (snd (Db2Store.createDatabaseTable corrupt_store)) "s1"
     = Some {| row_expires := 0; row_data := Some "{oops" |}.
Proof.
  destruct (createDatabaseTable_creates_once corrupt_store eq_refl) as [_ Hexists].
  destruct (Hexists _ eq_refl) as [Herr Htable].
  split; [exact Herr|]. unfold stored_row. rewrite Htable. reflexivity.
Defined.

(** *** X14 *)

(** X14.  Once [dropDatabaseTable] has dropped the table, every other
    method that gets as far as its query calls back with the error of the
    driver, and does not throw, until [createDatabaseTable] creates the
    table again, empty. *)
Theorem dropped_table_is_not_queryable (rt : Runtime) (store : Db2Store.t)
    (t : gmap string Row) :
  connected (Db2Store.client store) = true ->
  table (Db2Store.client store) = Some t ->
  truthy (allowDrop (Db2Store.options store)) = true ->
  fst (Db2Store.dropDatabaseTable store) = Called None VUndefined
  /\ table (Db2Store.client (snd (Db2Store.dropDatabaseTable store))) = None
  /\ (forall op,
        op <> OpCreateDatabaseTable ->
        reaches_query rt op store = true ->
        exists result,
          fst (perform rt op (snd (Db2Store.dropDatabaseTable store)))
          = Called (Some undefined_table) result)
  /\ fst (Db2Store.createDatabaseTable (snd (Db2Store.dropDatabaseTable store)))
     = Called None VUndefined
  /\ table (Db2Store.client
              (snd (Db2Store.createDatabaseTable
                      (snd (Db2Store.dropDatabaseTable store)))))
     = Some ∅.
Proof.
  destruct store as [opts [conn tbl log] ev]. simpl. intros -> -> Hdrop.
  unfold Db2Store.dropDatabaseTable. simpl. rewrite Hdrop. simpl.
  split_and!; try done.
  intros op Hop Hq.
  destruct op; simpl in *; unfold Db2Store.get, Db2Store.set, Db2Store.destroy,
    Db2Store.touch, Db2Store.length, Db2Store.clear,
    Db2Store.dropDatabaseTable, query; simpl; eauto.
  - destruct (getExpires rt now sess _); simpl in *; [|done].
    destruct (JSON_stringify rt sess); simpl in *; [|done]. eauto.
  - destruct (getExpires rt now sess _); simpl in *; [|done]. eauto.
  - done.
  - rewrite Hdrop. simpl. eauto.
Qed.

Lemma dropped_table_is_not_queryable_witness :
  exists result,
    fst (perform plain_runtime (OpGet "s1")
           (snd (Db2Store.dropDatabaseTable droppable_store)))
    = Called (Some undefined_table) result.
Proof.
  destruct (dropped_table_is_not_queryable plain_runtime droppable_store ∅
              eq_refl eq_refl eq_refl) as (_ & _ & Hop & _).
  apply Hop; [discriminate|reflexivity].
Defined.

(** ** The image of a value *)

Section ImageProperties.
Context (rt : Runtime).

Lemma written_members_names (image : value -> value)
    (ps : list (string * value)) (k : string) :
  lookup_property k ps = None ->
  lookup_property k (written_members image ps) = None.
Proof.
  induction ps as [|[k' x] ps IH]; simpl; [done|].
  destruct (String.eqb k k') eqn:Hk; [done|]. intros H.
  destruct x; simpl; rewrite ?Hk; auto.
Qed.

Lemma written_members_distinct (image : value -> value)
    (ps : list (string * value)) :
  distinct_names ps = true -> distinct_names (written_members image ps) = true.
Proof.
  induction ps as [|[k x] ps IH]; simpl; [done|].
  destruct (lookup_property k ps) eqn:Hk; [done|]. simpl. intros H.
  destruct x; simpl; auto;
    by rewrite (written_members_names image ps k Hk), (IH H).
Qed.

Lemma written_members_names_only (image : value -> value)
    (ps : list (string * value)) :
  names_only ps = true -> names_only (written_members image ps) = true.
Proof.
  induction ps as [|[k x] ps IH]; simpl; [done|].
  destruct (array_index k) eqn:Hk; [done|]. intros H.
  destruct x; simpl; rewrite ?Hk; auto.
Qed.

(** A list in enumeration order stays so when it is entered at a smaller
    index, or at none. *)
Lemma enumeration_order_below (prev prev' : option N)
    (ps : list (string * value)) :
  match prev', prev with
  | Some p', Some p => (p' <= p)%N
  | Some _, None => False
  | None, _ => True
  end ->
  enumeration_order prev ps = true -> enumeration_order prev' ps = true.
Proof.
  destruct ps as [|[k x] ps]; simpl; [done|].
  destruct (array_index k) as [i|]; [|done].
  intros Hle. intros [Hi Hrest]%andb_true_iff. apply andb_true_iff. split; [|done].
  destruct prev' as [p'|]; [|done]. destruct prev as [p|]; [|done].
  apply N.ltb_lt in Hi. apply N.ltb_lt. lia.
Qed.

Lemma written_members_order (image : value -> value) (prev : option N)
    (ps : list (string * value)) :
  enumeration_order prev ps = true ->
  enumeration_order prev (written_members image ps) = true.
Proof.
  revert prev. induction ps as [|[k x] ps IH]; intros prev; simpl; [done|].
  destruct (array_index k) as [i|] eqn:Hk.
  - intros [Hi Hrest]%andb_true_iff.
    assert (enumeration_order prev (written_members image ps) = true) as Hskip.
    { apply (enumeration_order_below (Some i)); [|by apply IH].
      destruct prev as [p|]; [|done]. apply N.ltb_lt in Hi. lia. }
    destruct x; simpl; rewrite ?Hk, ?Hi; simpl; auto.
  - intros Hnames.
    assert (enumeration_order prev (written_members image ps) = true) as Hskip.
    { apply (written_members_names_only image) in Hnames.
      clear IH. induction (written_members image ps) as [|[k' x'] qs IHq];
        simpl in *; [done|].
      by destruct (array_index k'). }
    destruct x; simpl; rewrite ?Hk; auto using written_members_names_only.
Qed.

Lemma image_is_json_data (v : value) :
  session_data v = true -> json_data (JSON_image rt v) = true.
Proof.
  induction v as [| |b|n|z|s|t|l IH|ps IH] using value_ind; simpl; try done.
  - by destruct n.
  - by destruct (TimeClip t).
  - induction IH as [|x l Hx Hl IHl]; simpl; [done|].
    intros [H1 H2]%andb_true_iff. by rewrite (Hx H1), (IHl H2).
  - intros [[Hd Ho]%andb_true_iff Hps]%andb_true_iff.
    rewrite (written_members_distinct _ _ Hd), (written_members_order _ _ _ Ho).
    simpl. clear Hd Ho.
    induction IH as [|[k x] ps Hx Hl IHl]; simpl in *; [done|].
    apply andb_true_iff in Hps as [H1 H2].
    specialize (Hx H1). specialize (IHl H2).
    destruct x as [| |b|[z|m p|]|z|s|t|l'|ps']; simpl in *;
      rewrite ?IHl, ?Hx; done.
Qed.

(** The text of a value is the text of its image. *)
Lemma image_has_the_text (v : value) :
  session_data v = true ->
  SerializeJSONProperty rt (JSON_image rt v)
  = if v is VUndefined then Normal (Some (txt "null"))
    else SerializeJSONProperty rt v.
Proof.
  induction v as [| |b|n|z|s|t|l IH|ps IH] using value_ind; simpl; try done.
  - by destruct n.
  - by destruct (TimeClip t).
  - intros Hl.
    assert (serialize_elements (SerializeJSONProperty rt) (map (JSON_image rt) l)
            = serialize_elements (SerializeJSONProperty rt) l) as ->; [|done].
    induction IH as [|x l Hx _ IHl]; simpl in *; [done|].
    apply andb_true_iff in Hl as [H1 H2].
    rewrite (Hx H1), (IHl H2). by destruct x.
  - intros [_ Hps]%andb_true_iff.
    assert (serialize_members (SerializeJSONProperty rt)
              (written_members (JSON_image rt) ps)
            = serialize_members (SerializeJSONProperty rt) ps) as ->; [|done].
    induction IH as [|[k x] ps Hx _ IHl]; simpl in *; [done|].
    apply andb_true_iff in Hps as [H1 H2]. specialize (Hx H1).
    destruct x; simpl in *; rewrite ?(IHl H2); try done;
      try (by rewrite Hx).
    by destruct (serialize_members (SerializeJSONProperty rt) ps).
Qed.

Lemma JSON_image_roundtrip (v : value) :
  session_data v = true -> v <> VUndefined ->
  exists text,
    JSON_stringify rt v = Normal (Some text)
    /\ JSON_parse text = Normal (JSON_image rt v).
Proof.
  intros Hv Hdef.
  destruct (JSON_roundtrip rt (JSON_image rt v) (image_is_json_data v Hv))
    as (text & Htext & Hparse).
  exists text. split; [|done].
  unfold JSON_stringify in *. rewrite image_has_the_text in Htext by done.
  by destruct v.
Qed.

Lemma json_data_image (v : value) :
  json_data v = true -> JSON_image rt v = v.
Proof.
  induction v as [| |b|n|z|s|t|l IH|ps IH] using value_ind; simpl; try done.
  - by destruct n.
  - intros Hl. f_equal.
    induction IH as [|x l Hx _ IHl]; simpl in *; [done|].
    apply andb_true_iff in Hl as [H1 H2]. by rewrite (Hx H1), (IHl H2).
  - intros [_ Hps]%andb_true_iff. f_equal.
    induction IH as [|[k x] ps Hx _ IHl]; simpl in *; [done|].
    apply andb_true_iff in Hps as [H1 H2].
    rewrite (IHl H2). destruct x; try done; by rewrite (Hx H1).
Qed.

End ImageProperties.

(** *** X10 *)

(** X10.  On a connected store whose table exists, [get] never throws
    and never changes the table.  It calls back with [null] when the id
    has no row and when the row's data is [NULL]; with the image of [v]
    when the row holds the JSON text of a value [v] made of session data;
    and with the error naming the id when [JSON.parse] rejects the text
    of the row. *)
Theorem get_returns_parsed_row (rt : Runtime) (store : Db2Store.t)
    (sid : string) (t : gmap string Row) :
  connected (Db2Store.client store) = true ->
  table (Db2Store.client store) = Some t ->
  table (Db2Store.client (snd (Db2Store.get store sid))) = Some t
  /\ (exists err result, fst (Db2Store.get store sid) = Called err result)
  /\ (t !! sid = None -> fst (Db2Store.get store sid) = Called None VNull)
  /\ (forall r,
        t !! sid = Some r -> row_data r = None ->
        fst (Db2Store.get store sid) = Called None VNull)
  /\ (forall r text v,
        t !! sid = Some r -> row_data r = Some text ->
        session_data v = true -> JSON_stringify rt v = Normal (Some text) ->
        fst (Db2Store.get store sid) = Called None (JSON_image rt v))
  /\ (forall r text e,
        t !! sid = Some r -> row_data r = Some text ->
        JSON_parse text = Throw e ->
        fst (Db2Store.get store sid)
        = Called (Some (GenericError
            ("Failed to parse data for session: " +:+ sid))) VUndefined).
Proof.
  intros Hc Ht. rewrite (get_live store sid t Hc Ht). simpl. split_and!.
  - done.
  - repeat case_match; eauto.
  - by intros ->.
  - by intros r -> ->.
  - intros r text v -> Htext Hdata Hv. simpl. rewrite Htext.
    assert (v <> VUndefined) as Hdef by (by intros ->).
    destruct (JSON_image_roundtrip rt v Hdata Hdef) as (text' & Htext' & Hparse).
    rewrite Hv in Htext'. injection Htext' as <-. by rewrite Hparse.
  - intros r text e -> Htext He. simpl. by rewrite Htext, He.
Qed.

Lemma get_returns_parsed_row_witness :
  fst (Db2Store.get
         (Db2Store.with_client fresh_store
            {| connected := true;
               table := Some {[ "s1" := {| row_expires := 5;
                                           row_data := Some "[1.5,true]" |} ]};
               issued := [] |}) "s1")
  = Called None (VArr [VNum (Frac 15 1); VBool true]).
Proof.
  destruct (get_returns_parsed_row plain_runtime
              (Db2Store.with_client fresh_store
                 {| connected := true;
                    table := Some {[ "s1" := {| row_expires := 5;
                                                row_data := Some "[1.5,true]" |} ]};
                    issued := [] |}) "s1" _ eq_refl eq_refl)
    as (_ & _ & _ & _ & Hrow & _).
  apply (Hrow {| row_expires := 5; row_data := Some "[1.5,true]" |} "[1.5,true]"
           (VArr [VNum (Frac 15 1); VBool true]));
    vm_compute; reflexivity.
Defined.

(** *** X15 *)

(** X15.  [JSON.stringify] followed by [JSON.parse] maps a value made of
    session data to its image: Dates become ISO strings, [NaN], invalid
    Dates and [undefined] array elements become [null], [undefined]
    properties disappear, and everything else, JSON data in particular,
    comes back as it was.  The image has the same text, so writing and
    reading it again changes nothing. *)
Theorem stringify_then_parse (rt : Runtime) (v : value) :
  session_data v = true ->
  v <> VUndefined ->
  exists text,
    JSON_stringify rt v = Normal (Some text)
    /\ JSON_parse text = Normal (JSON_image rt v)
    /\ JSON_stringify rt (JSON_image rt v) = Normal (Some text)
    /\ (json_data v = true -> JSON_image rt v = v).
Proof.
  intros Hv Hdef.
  destruct (JSON_image_roundtrip rt v Hv Hdef) as (text & Htext & Hparse).
  exists text. split_and!; [done|done| |apply json_data_image].
  unfold JSON_stringify in *. rewrite image_has_the_text by done.
  by destruct v.
Qed.

Lemma stringify_then_parse_witness :
  exists text,
    JSON_stringify stamp_runtime dated_session = Normal (Some text)
    /\ JSON_parse text
       = Normal (VObj [("cookie",
                        VObj [("originalMaxAge", VNum (Fin 60000));
                              ("expires", VStr "1970-01-01T00:17:40.000Z");
                              ("path", VStr "/")]);
                       ("views", VNum (Fin 3))]).
Proof.
  destruct (stringify_then_parse stamp_runtime dated_session)
    as (text & Htext & Hparse & _).
  - vm_compute. reflexivity.
  - discriminate.
  - exists text. split; [exact Htext|exact Hparse].
Defined.

(** *** X16 *)

(** X16.  On a connected store whose table exists, a session made of
    session data whose expiry computes to whole seconds and whose text
    and id fit their columns is stored by [set], and the following [get]
    returns its image: the session with its Dates as ISO strings and
    without its [undefined] properties. *)
Theorem set_then_get_returns_image (rt : Runtime) (now : Z) (store : Db2Store.t)
    (sid : string) (sess : value) (t : gmap string Row) (e : Z) (text : string) :
  connected (Db2Store.client store) = true ->
  table (Db2Store.client store) = Some t ->
  session_data sess = true ->
  getExpires rt now sess (expiration (Db2Store.options store)) = Normal (Fin e) ->
  JSON_stringify rt sess = Normal (Some text) ->
  Z.of_nat (String.length sid) <= 255 ->
  Z.of_nat (String.length text) <= 8100 ->
  fst (Db2Store.set rt now store sid sess) = Called None VUndefined
  /\ set_then_get rt now store sid sess = Called None (JSON_image rt sess).
Proof.
  intros Hc Ht Hdata He Htext Hsid Hlen. unfold set_then_get.
  rewrite (set_live rt now store sid sess t e text Hc Ht He Htext Hsid Hlen).
  split; [done|]. simpl snd.
  erewrite get_live by reflexivity. rewrite lookup_insert_eq. simpl.
  assert (sess <> VUndefined) as Hdef by (by intros ->).
  destruct (JSON_image_roundtrip rt sess Hdata Hdef) as (text' & Htext' & Hparse).
  rewrite Htext in Htext'. injection Htext' as <-. by rewrite Hparse.
Qed.

Lemma set_then_get_returns_image_witness :
  fst (Db2Store.set stamp_runtime 1000000 fresh_store "s1" dated_session)
  = Called None VUndefined
  /\ set_then_get stamp_runtime 1000000 fresh_store "s1" dated_session
     = Called None (JSON_image stamp_runtime dated_session).
Proof.
  eapply (set_then_get_returns_image stamp_runtime 1000000 fresh_store "s1"
            dated_session ∅ 1060).
  - reflexivity.
  - reflexivity.
  - vm_compute. reflexivity.
  - vm_compute. reflexivity.
  - vm_compute. reflexivity.
  - vm_compute. discriminate.
  - vm_compute. discriminate.
Defined.

(** ** [JSON.stringify] and BigInt *)

Section Serializing.
Context (rt : Runtime).

Lemma serialize_bigint (v : value) :
  if contains_bigint v
  then SerializeJSONProperty rt v
       = Throw (TypeError "Do not know how to serialize a BigInt")
  else exists t, SerializeJSONProperty rt v = Normal t.
Proof.
  induction v as [| |b|n|z|s|t|l IH|ps IH] using value_ind; simpl; eauto.
  - destruct n; eauto.
  - destruct (TimeClip t); eauto.
  - assert (if existsb contains_bigint l
            then serialize_elements (SerializeJSONProperty rt) l
                 = Throw (TypeError "Do not know how to serialize a BigInt")
            else exists parts,
                serialize_elements (SerializeJSONProperty rt) l = Normal parts)
      as Hl.
    { induction IH as [|x l Hx _ IHl]; simpl; [eauto|].
      destruct (contains_bigint x); simpl.
      - by rewrite Hx.
      - destruct Hx as [t ->]. simpl.
        destruct (existsb contains_bigint l).
        + by rewrite IHl.
        + destruct IHl as [parts ->]. simpl. eauto. }
    destruct (existsb contains_bigint l).
    + by rewrite Hl.
    + destruct Hl as [parts ->]. simpl. eauto.
  - assert (if existsb (fun p => contains_bigint (snd p)) ps
            then serialize_members (SerializeJSONProperty rt) ps
                 = Throw (TypeError "Do not know how to serialize a BigInt")
            else exists parts,
                serialize_members (SerializeJSONProperty rt) ps = Normal parts)
      as Hps.
    { induction IH as [|[k x] ps Hx _ IHl]; simpl in *; [eauto|].
      destruct (contains_bigint x); simpl.
      - by rewrite Hx.
      - destruct Hx as [t ->]. simpl.
        destruct (existsb (fun p => contains_bigint (snd p)) ps).
        + by rewrite IHl.
        + destruct IHl as [parts ->]. simpl. eauto. }
    destruct (existsb (fun p => contains_bigint (snd p)) ps).
    + by rewrite Hps.
    + destruct Hps as [parts ->]. simpl. eauto.
Qed.

End Serializing.

(** *** X17 *)

(** X17.  [JSON.stringify] throws for a value exactly when the value
    holds a BigInt, and then a [TypeError]; so [set] reports a
    serialization error for the sessions that hold a BigInt, and for no
    other session whose expiry computes. *)
Theorem stringify_throws_on_bigint_only (rt : Runtime) (v : value) :
  (contains_bigint v = true ->
   JSON_stringify rt v = Throw (TypeError "Do not know how to serialize a BigInt")
   /\ forall now store sid expires,
        getExpires rt now v (expiration (Db2Store.options store)) = Normal expires ->
        Db2Store.set rt now store sid v
        = (Called (Some (TypeError "Do not know how to serialize a BigInt"))
             VUndefined, store))
  /\ (contains_bigint v = false -> exists t, JSON_stringify rt v = Normal t).
Proof.
  pose proof (serialize_bigint rt v) as H. unfold JSON_stringify. split.
  - intros Hb. rewrite Hb in H. rewrite H. split; [done|].
    intros now store sid expires He. unfold Db2Store.set, JSON_stringify.
    by rewrite He, H.
  - intros Hb. rewrite Hb in H. destruct H as [t ->]. simpl. eauto.
Qed.

(** ** The text of the statements *)

Lemma count_char_append (c : ascii) (a b : string) :
  count_char c (a +:+ b) = (count_char c a + count_char c b)%nat.
Proof. induction a as [|c' a IH]; simpl; [done|]. rewrite IH. lia. Qed.

(** *** X18 *)

(** X18.  The text of a statement is built from the configured names
    alone: the session id, the session text and the expiry never enter
    it and travel as parameters; when the names hold no question mark
    the text has exactly one placeholder for each parameter. *)
Theorem statements_are_parameterised (s : Schema) (q : Statement) :
  plain_names s ->
  (forall q', same_kind q q' = true -> sql s q = sql s q')
  /\ count_char "?" (sql s q) = length (params q).
Proof.
  intros (Ht & Hs & He & Hd). split.
  - intros q'. destruct q, q'; intros Hq; try discriminate Hq;
      unfold sql; reflexivity.
  - destruct q; unfold sql; cbn -[String.append];
      repeat (rewrite count_char_append; cbn -[String.append]);
      rewrite ?Ht, ?Hs, ?He, ?Hd; reflexivity.
Qed.

Lemma statements_are_parameterised_witness :
  sql (schema defaultOptions) (SelectData "a")
  = sql (schema defaultOptions) (SelectData "b")
  /\ count_char "?" (sql (schema defaultOptions) (InsertSession "a" (Fin 1) None))
     = 3%nat.
Proof.
  assert (plain_names (schema defaultOptions)) as Hnames.
  { unfold plain_names. simpl. auto. }
  split.
  - exact (proj1 (statements_are_parameterised (schema defaultOptions)
                    (SelectData "a") Hnames) (SelectData "b") eq_refl).
  - exact (proj2 (statements_are_parameterised (schema defaultOptions)
                    (InsertSession "a" (Fin 1) None) Hnames)).
Defined.

(** ** What [JSON.parse] returns *)

Lemma decimal_is_a_number (m x : Z) : decimal m x <> NaN.
Proof.
  unfold decimal. destruct (0 <=? x); [done|].
  destruct (strip_zeros _ _) as [m' [|k]]; done.
Qed.

Lemma parse_number_is_a_number (s : text) (n : number) (rest : text) :
  parse_number s = Some (n, rest) -> n <> NaN.
Proof.
  assert (forall negative s, parse_unsigned negative s = Some (n, rest) -> n <> NaN)
    as Hu.
  { intros negative s'. unfold parse_unsigned.
    repeat case_match; try done; intros [= <- _]; apply decimal_is_a_number. }
  unfold parse_number. repeat case_match; eauto.
Qed.

Lemma replace_property_plain (k : string) (v : value) (ps : list (string * value)) :
  plain_data v = true ->
  forallb (fun p => plain_data (snd p)) ps = true ->
  forallb (fun p => plain_data (snd p)) (replace_property k v ps) = true.
Proof.
  intros Hv. induction ps as [|[k' v'] ps IH]; simpl; [done|].
  intros [H1 H2]%andb_true_iff.
  destruct (String.eqb k k'); simpl; [by rewrite Hv|by rewrite H1, IH].
Qed.

Lemma insert_index_plain (i : N) (k : string) (v : value)
    (ps : list (string * value)) :
  plain_data v = true ->
  forallb (fun p => plain_data (snd p)) ps = true ->
  forallb (fun p => plain_data (snd p)) (insert_index i k v ps) = true.
Proof.
  intros Hv. induction ps as [|[k' v'] ps IH]; simpl; [by rewrite Hv|].
  intros [H1 H2]%andb_true_iff.
  destruct (array_index k') as [j|]; [destruct (j <? i)%N|]; simpl;
    rewrite ?Hv, ?H1, ?H2; auto.
Qed.

Lemma define_property_plain (k : string) (v : value) (ps : list (string * value)) :
  plain_data v = true ->
  forallb (fun p => plain_data (snd p)) ps = true ->
  forallb (fun p => plain_data (snd p)) (define_property k v ps) = true.
Proof.
  intros Hv Hps. unfold define_property.
  destruct (lookup_property k ps); [by apply replace_property_plain|].
  destruct (array_index k); [by apply insert_index_plain|].
  rewrite forallb_app. simpl. by rewrite Hps, Hv.
Qed.

Lemma value_step_plain elements members (s : text) (v : value) (rest : text) :
  (forall s vs rest, elements s = Some (vs, rest) -> forallb plain_data vs = true) ->
  (forall s v rest, members s [] = Some (v, rest) -> plain_data v = true) ->
  value_step elements members s = Some (v, rest) ->
  plain_data v = true.
Proof.
  intros He Hm. unfold value_step.
  repeat case_match; try done; subst; intros; simplify_eq; try done.
  all: try match goal with
           | H : parse_number _ = Some (?n, _) |- _ =>
               apply parse_number_is_a_number in H; by destruct n
           end.
  all: eauto.
Qed.

Lemma elements_step_plain parse elements (s : text) vs (rest : text) :
  (forall s v rest, parse s = Some (v, rest) -> plain_data v = true) ->
  (forall s vs rest, elements s = Some (vs, rest) -> forallb plain_data vs = true) ->
  elements_step parse elements s = Some (vs, rest) ->
  forallb plain_data vs = true.
Proof.
  intros Hp He. unfold elements_step.
  destruct (parse s) as [[v rest0]|] eqn:Hv; [|done]. apply Hp in Hv.
  repeat case_match; try done; subst; intros; simplify_eq; simpl;
    rewrite Hv; simpl; eauto.
Qed.

Lemma members_step_plain parse members (s : text) acc v (rest : text) :
  (forall s v rest, parse s = Some (v, rest) -> plain_data v = true) ->
  (forall s acc v rest,
      members s acc = Some (v, rest) ->
      forallb (fun p => plain_data (snd p)) acc = true -> plain_data v = true) ->
  members_step parse members s acc = Some (v, rest) ->
  forallb (fun p => plain_data (snd p)) acc = true ->
  plain_data v = true.
Proof.
  intros Hp Hm. unfold members_step.
  destruct (skip_ws s) as [|c s1] eqn:Hs; [done|].
  destruct (Ascii.eqb c dquote); [|done].
  destruct (parse_string_chars s1) as [[k s2]|] eqn:Hk; [|done].
  destruct (skip_ws s2) as [|c2 s3] eqn:Hs2; [done|].
  destruct (parse s3) as [[v' s4]|] eqn:Hv.
  - apply Hp in Hv. simpl.
    repeat case_match; try done; subst; intros; simplify_eq;
      eauto using define_property_plain.
  - repeat case_match; try done.
Qed.

Lemma parse_plain (fuel : nat) :
  (forall s v rest, parse_value fuel s = Some (v, rest) -> plain_data v = true)
  /\ (forall s vs rest, parse_elements fuel s = Some (vs, rest) ->
                        forallb plain_data vs = true)
  /\ (forall s acc v rest,
         parse_members fuel s acc = Some (v, rest) ->
         forallb (fun p => plain_data (snd p)) acc = true -> plain_data v = true).
Proof.
  induction fuel as [|fuel (IHv & IHe & IHm)]; [by split_and!|].
  split_and!.
  - intros s v rest. rewrite parse_value_step.
    apply value_step_plain; [done|]. intros s' v' rest' H. by eapply IHm.
  - intros s vs rest. rewrite parse_elements_step. by apply elements_step_plain.
  - intros s acc v rest. rewrite parse_members_step. by apply members_step_plain.
Qed.

Lemma JSON_parse_plain (s : string) (v : value) :
  JSON_parse s = Normal v -> plain_data v = true.
Proof.
  unfold JSON_parse.
  destruct (parse_value _ _) as [[v' rest]|] eqn:Hv; [|done].
  apply (proj1 (parse_plain _)) in Hv.
  destruct (skip_ws rest); [|done]. by intros [= <-].
Qed.

(** *** X19 *)

(** X19.  A session that [get] returns is plain data: it holds no Date
    object, no [undefined], no BigInt and no [NaN].  This covers every
    row whose text [JSON_parse] reads: JSON text whose escapes [\uXXXX]
    are at most [00FF]. *)
Theorem get_returns_plain_data (store : Db2Store.t) (sid : string)
    (result : value) :
  fst (Db2Store.get store sid) = Called None result ->
  plain_data result = true.
Proof.
  unfold Db2Store.get.
  destruct (negb (connected (Db2Store.client store))); [done|].
  destruct (query _ _) as [[rows|err] c]; simpl; [|done].
  destruct rows as [|row rows]; [by intros [= <-]|].
  destruct (Db2Store.parse_data row) as [v|] eqn:Hrow; simpl; [|done].
  intros [= <-]. unfold Db2Store.parse_data in Hrow.
  destruct row as [[text|]|n]; eauto using JSON_parse_plain.
Qed.

Lemma get_returns_plain_data_witness :
  plain_data
    (JSON_image stamp_runtime dated_session) = true.
Proof.
  apply (get_returns_plain_data
           (snd (Db2Store.set stamp_runtime 1000000 fresh_store "s1" dated_session))
           "s1").
  vm_compute. reflexivity.
Defined.
